(** * bert_helpers: training with early stopping, evaluation with MC dropout

    A shallow embedding of [src/bert_helpers.py].  Python floats are IEEE
    binary64 numbers and are modelled by Rocq's primitive floats; Python
    exceptions by the [Raise] constructor of [result]; the objects the code
    mutates (the model, the optimizer, the files on disk) by one explicit
    [world] that every stateful function threads.  PyTorch, numpy, scipy and
    scikit-learn are external: their objects are the fields of the class
    [Torch], their functions are modelled from their documented behaviour. *)

From Stdlib Require Import ZArith List String Ascii Floats Uint63 Lia Bool.
From stdpp Require Import gmap strings list pretty sorting.

Open Scope Z_scope.

(** ** Python exceptions and results *)

Inductive exn : Set :=
  | ZeroDivisionError
  | IndexError
  | ValueError
  | TypeError
  | AxisError
  | UnpicklingError
  | FileNotFoundError.

Inductive result (A : Type) : Type :=
  | Ok (a : A)
  | Raise (e : exn).
Arguments Ok {A} a.
Arguments Raise {A} e.

Definition rbind {A B} (r : result A) (k : A -> result B) : result B :=
  match r with
  | Ok a => k a
  | Raise e => Raise e
  end.

Notation "'try!' x ':=' r 'in' k" := (rbind r (fun x => k))
  (at level 10, x pattern, r at level 100, k at level 200).

Fixpoint rmap {A B} (f : A -> result B) (l : list A) : result (list B) :=
  match l with
  | [] => Ok []
  | a :: l' => try! b := f a in try! bs := rmap f l' in Ok (b :: bs)
  end.

(** ** Floats *)

(** [float(n)] for a length [n]; exact below 2^53. *)
Definition float_of_nat (n : nat) : float :=
  PrimFloat.of_uint63 (Uint63.of_Z (Z.of_nat n)).

(** Python's [x / n] for a float [x] and an int [n]: dividing by the int 0
    raises, any other int is converted to a float first. *)
Definition py_div_len (x : float) (n : nat) : result float :=
  match n with
  | O => Raise ZeroDivisionError
  | S _ => Ok (x / float_of_nat n)%float
  end.

(** ** numpy *)

Module np.

(** [np.argmin] of a one-dimensional float array: the index of the first
    occurrence of the minimum; a NaN counts as the minimum, and the scan
    stops at the first one. *)
Fixpoint argmin_scan (mp : float) (mi i : nat) (l : list float) : nat :=
  match l with
  | [] => mi
  | x :: l' =>
      if PrimFloat.is_nan mp then mi
      else if negb (mp <=? x)%float then argmin_scan x i (S i) l'
      else argmin_scan mp mi (S i) l'
  end.

Definition argmin (l : list float) : result nat :=
  match l with
  | [] => Raise ValueError
  | x :: l' => Ok (argmin_scan x 0%nat 1%nat l')
  end.

(** [np.argmax], the mirror image. *)
Fixpoint argmax_scan (mp : float) (mi i : nat) (l : list float) : nat :=
  match l with
  | [] => mi
  | x :: l' =>
      if PrimFloat.is_nan mp then mi
      else if negb (x <=? mp)%float then argmax_scan x i (S i) l'
      else argmax_scan mp mi (S i) l'
  end.

Definition argmax (l : list float) : result nat :=
  match l with
  | [] => Raise ValueError
  | x :: l' => Ok (argmax_scan x 0%nat 1%nat l')
  end.

(** [np.argmax(a, axis=1)] of a two-dimensional array, as class indices. *)
Definition argmax_rows (a : list (list float)) : result (list Z) :=
  rmap (fun row => try! i := argmax row in Ok (Z.of_nat i)) a.

(** [counts.argmax()] on integer counts: first occurrence of the maximum. *)
Fixpoint argmax_nat_scan (mp : nat) (mi i : nat) (l : list nat) : nat :=
  match l with
  | [] => mi
  | x :: l' =>
      if (mp <? x)%nat then argmax_nat_scan x i (S i) l'
      else argmax_nat_scan mp mi (S i) l'
  end.

Definition argmax_nat (l : list nat) : result nat :=
  match l with
  | [] => Raise ValueError
  | x :: l' => Ok (argmax_nat_scan x 0%nat 1%nat l')
  end.

(** Index normalisation of [a[i]] on an axis of length [n]: negative
    indices count from the end, anything else out of range raises. *)
Definition index (n : nat) (i : Z) : result nat :=
  if (0 <=? i) && (i <? Z.of_nat n) then Ok (Z.to_nat i)
  else if (- Z.of_nat n <=? i) && (i <? 0) then Ok (Z.to_nat (i + Z.of_nat n))
  else Raise IndexError.

(** [np.zeros((3, 3))]; the cells only ever hold counts. *)
Definition zeros33 : list (list Z) := [[0; 0; 0]; [0; 0; 0]; [0; 0; 0]].

(** [np.unique(a)]: the sorted distinct values. *)
Definition unique (l : list Z) : list Z := merge_sort Z.le (remove_dups l).

End np.

(** ** scikit-learn and scipy *)

(** [sklearn.metrics.accuracy_score(y_true, y_pred)]: the fraction of
    positions where the two agree; arrays of different lengths raise. *)
Definition matches (y_true y_pred : list Z) : nat :=
  length (filter (fun '(t, p) => t = p) (zip y_true y_pred)).

Definition accuracy_score (y_true y_pred : list Z) : result float :=
  if decide (length y_true = length y_pred)
  then Ok (float_of_nat (matches y_true y_pred) / float_of_nat (length y_true))%float
  else Raise ValueError.

Module stats.

(** [scipy.stats.mode] of a one-dimensional integer array, computed as
    scipy does: [vals, cnts = np.unique(a, return_counts=True)] and then
    [vals[cnts.argmax()]]. *)
Definition counts (l vals : list Z) : list nat :=
  map (fun v => count_occ Z.eq_dec l v) vals.

Definition mode1 (l : list Z) : result Z :=
  let vals := np.unique l in
  try! i := np.argmax_nat (counts l vals) in
  match vals !! i with
  | Some v => Ok v
  | None => Raise IndexError
  end.

(** Column [b] of a two-dimensional array given by its rows. *)
Definition column (a : list (list Z)) (b : nat) : result (list Z) :=
  rmap (fun row => match row !! b with
                   | Some v => Ok v
                   | None => Raise IndexError
                   end) a.

(** [stats.mode(a)[0]] of a two-dimensional array: the mode along axis 0,
    one value per column. *)
Definition mode (a : list (list Z)) : result (list Z) :=
  match a with
  | [] => Raise AxisError
  | r0 :: _ =>
      rmap (fun b => try! col := column a b in mode1 col) (seq 0 (length r0))
  end.

End stats.

(** ** The confusion matrix *)

Abbreviation matrix := (list (list Z)).

Definition cell (cm : matrix) (r c : nat) : option Z :=
  match cm !! r with
  | Some row => row !! c
  | None => None
  end.

(** [confusion_matrix[l, p] += 1] *)
Definition incr_cell (cm : matrix) (l p : Z) : result matrix :=
  try! i := np.index (length cm) l in
  match cm !! i with
  | None => Raise IndexError
  | Some row =>
      try! j := np.index (length row) p in
      match row !! j with
      | None => Raise IndexError
      | Some v => Ok (<[i := <[j := v + 1]> row]> cm)
      end
  end.

(** The body of the loop [for i in range(len(predictions))], over the
    indices still to visit. *)
Fixpoint update_loop (cm : matrix) (predictions labels : list Z)
    (idx : list nat) : result matrix :=
  match idx with
  | [] => Ok cm
  | i :: rest =>
      match labels !! i, predictions !! i with
      | Some l, Some p =>
          try! cm' := incr_cell cm l p in
          update_loop cm' predictions labels rest
      | _, _ => Raise IndexError
      end
  end.

Definition update_confusion_matrix (confusion_matrix : matrix)
    (predictions labels : list Z) : result matrix :=
  update_loop confusion_matrix predictions labels
    (seq 0 (length predictions)).

(** ** Text *)

Definition newline_char : ascii := ascii_of_nat 10.
Definition nl : string := String newline_char EmptyString.

(** ["\n" in text] *)
Fixpoint contains_newline (text : string) : bool :=
  match text with
  | EmptyString => false
  | String c rest => if Ascii.eqb c newline_char then true else contains_newline rest
  end.

(** [text.endswith("\n")] *)
Fixpoint ends_with_newline (text : string) : bool :=
  match text with
  | EmptyString => false
  | String c EmptyString => Ascii.eqb c newline_char
  | String _ rest => ends_with_newline rest
  end.

Fixpoint join_with (d : string) (l : list string) : string :=
  match l with
  | [] => ""
  | [s] => s
  | s :: rest => s +:+ d +:+ join_with d rest
  end.

(** What [np.savetxt(f, a, fmt='%d', footer="\n")] writes: one line per
    row, the cells separated by a blank, then the commented footer. *)
Definition savetxt (a : matrix) : string :=
  fold_right String.append ""
    (map (fun row => join_with " " (map pretty row) +:+ nl) a)
  +:+ "# " +:+ nl +:+ "# " +:+ nl.

(** ** The external collaborators *)

(** A sub-module of the model as [model.modules()] yields it: its class
    name and its [training] flag. *)
Record module := Module { cls_name : string; training : bool }.

(** What PyTorch provides and this code only calls. *)
Class Torch := {
  (** [model.state_dict()]: the parameter tensors *)
  state_dict : Type;
  (** [optimizer.state]: what the optimizer accumulates per parameter *)
  opt_state : Type;
  (** the random generator dropout and shuffling draw from *)
  generator : Type;
  (** the fields of a batch other than the labels *)
  inputs : Type;
  (** the autograd graph a forward pass leaves behind *)
  graph : Type;
  (** the [.grad] buffers of the parameters *)
  gradients : Type;
  (** the forward pass [model] applied to a batch: loss and logits, given the parameters, the modes of
      the sub-modules and the generator *)
  model_call : state_dict -> list module -> generator -> inputs -> list Z ->
               (float * list (list float) * graph) * generator;
  zero_gradients : gradients;
  (** [loss.backward()] adds to the buffers *)
  backward : graph -> gradients -> gradients;
  (** [optimizer.step()] *)
  step : opt_state -> state_dict -> gradients -> state_dict * opt_state;
  (** the state of [torch.optim.AdamW(model.parameters())], just built *)
  AdamW : state_dict -> opt_state;
  (** [torch.save] and [torch.load] *)
  pickle : state_dict -> string;
  unpickle : string -> option state_dict;
  (** [str(x)] of a float *)
  float_str : float -> string
}.

(** What the operating system and hydra provide. *)
Class Os := {
  (** [hydra.utils.get_original_cwd()] *)
  original_cwd : string;
  (** [os.path.sep], which is [os.sep] *)
  sep : string
}.

Section Program.
Context `{Torch} `{Os}.

Record batch := Batch { b_inputs : inputs; b_labels : list Z }.

(** A dataloader has a fixed number of batches; which batches one pass
    yields may depend on the generator (shuffling), which it advances. *)
Record dataloader := Dataloader {
  dl_len : nat;
  dl_batch : generator -> nat -> batch;
  dl_advance : generator -> generator
}.

(** The optimizer object: its state, and the attribute [params] that
    [train] sets on it. *)
Record optimizer := Optimizer {
  o_state : opt_state;
  o_params : option opt_state
}.

(** Everything the code can mutate.  [w_calls] is a ghost field: the modes
    of the sub-modules at each forward pass, latest first. *)
Record world := World {
  w_params : state_dict;
  w_modules : list module;
  w_grad : gradients;
  w_opt : optimizer;
  w_rng : generator;
  w_fs : gmap string string;
  w_calls : list (list module)
}.

Definition set_params (p : state_dict) (w : world) : world :=
  World p (w_modules w) (w_grad w) (w_opt w) (w_rng w) (w_fs w) (w_calls w).
Definition set_modules (ms : list module) (w : world) : world :=
  World (w_params w) ms (w_grad w) (w_opt w) (w_rng w) (w_fs w) (w_calls w).
Definition set_grad (g : gradients) (w : world) : world :=
  World (w_params w) (w_modules w) g (w_opt w) (w_rng w) (w_fs w) (w_calls w).
Definition set_opt (o : optimizer) (w : world) : world :=
  World (w_params w) (w_modules w) (w_grad w) o (w_rng w) (w_fs w) (w_calls w).
Definition set_rng (g : generator) (w : world) : world :=
  World (w_params w) (w_modules w) (w_grad w) (w_opt w) g (w_fs w) (w_calls w).
Definition set_fs (fs : gmap string string) (w : world) : world :=
  World (w_params w) (w_modules w) (w_grad w) (w_opt w) (w_rng w) fs (w_calls w).
Definition log_call (w : world) : world :=
  World (w_params w) (w_modules w) (w_grad w) (w_opt w) (w_rng w) (w_fs w)
    (w_modules w :: w_calls w).

(** ** The state and exception monad *)

Definition M (A : Type) : Type := world -> result A * world.

Definition ret {A} (a : A) : M A := fun w => (Ok a, w).
Definition raise {A} (e : exn) : M A := fun w => (Raise e, w).
Definition lift {A} (r : result A) : M A := fun w => (r, w).
Definition modify (f : world -> world) : M unit := fun w => (Ok tt, f w).
Definition bind {A B} (m : M A) (k : A -> M B) : M B :=
  fun w =>
    match m w with
    | (Ok a, w') => k a w'
    | (Raise e, w') => (Raise e, w')
    end.

Notation "'do!' x ':=' m 'in' k" := (bind m (fun x => k))
  (at level 10, x pattern, m at level 100, k at level 200).

(** [for a in l: s = body(a, s)] *)
Fixpoint for_each {A S} (l : list A) (body : A -> S -> M S) (s : S) : M S :=
  match l with
  | [] => ret s
  | a :: l' => do! s' := body a s in for_each l' body s'
  end.

(** ** The model and the optimizer *)

Definition set_training (b : bool) (m : module) : module :=
  Module (cls_name m) b.

(** [model.train()] and [model.eval()] set the flag of every sub-module. *)
Definition model_train : M unit :=
  modify (fun w => set_modules (map (set_training true) (w_modules w)) w).
Definition model_eval : M unit :=
  modify (fun w => set_modules (map (set_training false) (w_modules w)) w).

(** The forward pass on one batch, [predictions = model] applied to it. *)
Definition call_model (b : batch) : M (float * list (list float) * graph) :=
  fun w =>
    let '(out, g) :=
      model_call (w_params w) (w_modules w) (w_rng w) (b_inputs b) (b_labels b) in
    (Ok out, set_rng g (log_call w)).

Definition optimizer_zero_grad : M unit :=
  modify (set_grad zero_gradients).

Definition loss_backward (gr : graph) : M unit :=
  modify (fun w => set_grad (backward gr (w_grad w)) w).

Definition optimizer_step : M unit :=
  modify (fun w =>
    let '(p, s) := step (o_state (w_opt w)) (w_params w) (w_grad w) in
    set_params p (set_opt (Optimizer s (o_params (w_opt w))) w)).

(** One pass over a dataloader: the batches it yields. *)
Definition iterate (dl : dataloader) : M (list batch) :=
  fun w =>
    (Ok (map (dl_batch dl (w_rng w)) (seq 0 (dl_len dl))),
     set_rng (dl_advance dl (w_rng w)) w).

(** ** Files *)

(** [f = open(path, "a"); f.write(text); f.close()]: the file is created
    when it is missing (its directory is taken to exist). *)
Definition append_file (path text : string) (fs : gmap string string) :
    gmap string string :=
  <[path := default "" (fs !! path) +:+ text]> fs.

Definition fs_append (path text : string) : M unit :=
  modify (fun w => set_fs (append_file path text (w_fs w)) w).

Definition write_to_file (folder file text : string) : M unit :=
  let f := folder +:+ sep +:+ file in
  do! _ := fs_append f text in
  if negb (contains_newline text) then fs_append f " " else ret tt.

(** [torch.save(model.state_dict(), path)] replaces the file. *)
Definition torch_save (path : string) : M unit :=
  modify (fun w => set_fs (<[path := pickle (w_params w)]> (w_fs w)) w).

(** [model.load_state_dict(torch.load(path))] *)
Definition torch_load (path : string) : M unit :=
  fun w =>
    match w_fs w !! path with
    | None => (Raise FileNotFoundError, w)
    | Some bytes =>
        match unpickle bytes with
        | None => (Raise UnpicklingError, w)
        | Some p => (Ok tt, set_params p w)
        end
    end.

(** ** bert_helpers.py *)

(** [turn_on_dropout], on the sub-modules of the model. *)
Definition is_dropout (m : module) : bool :=
  String.prefix "Dropout" (cls_name m).

Definition turn_on_dropout_modules (modules : list module) : list module :=
  map (fun m => if is_dropout m then set_training true m else m) modules.

Definition turn_on_dropout : M unit :=
  modify (fun w => set_modules (turn_on_dropout_modules (w_modules w)) w).

(** The loop body of [training_step]; the accumulator is
    [(epoch_loss, average_acc)]. *)
Definition training_body (b : batch) (acc : float * float) : M (float * float) :=
  let '(epoch_loss, average_acc) := acc in
  do! _ := optimizer_zero_grad in
  do! predictions := call_model b in
  let '(loss, logits, gr) := predictions in
  do! classes := lift (np.argmax_rows logits) in
  do! acc := lift (accuracy_score (b_labels b) classes) in
  do! _ := loss_backward gr in
  do! _ := optimizer_step in
  ret (epoch_loss + loss, average_acc + acc)%float.

Definition training_step (dl : dataloader) : M (float * float) :=
  do! _ := model_train in
  do! batches := iterate dl in
  do! sums := for_each batches training_body (0, 0)%float in
  let '(epoch_loss, average_acc) := sums in
  do! mean_acc := lift (py_div_len average_acc (dl_len dl)) in
  do! mean_loss := lift (py_div_len epoch_loss (dl_len dl)) in
  ret (mean_acc, mean_loss).

(** The loop body of [validation_step]; the accumulator is
    [(average_acc, epoch_loss)]. *)
Definition validation_body (b : batch) (acc : float * float) : M (float * float) :=
  let '(average_acc, epoch_loss) := acc in
  do! predictions := call_model b in
  let '(loss, logits, _) := predictions in
  do! classes := lift (np.argmax_rows logits) in
  do! acc := lift (accuracy_score (b_labels b) classes) in
  ret (average_acc + acc, epoch_loss + loss)%float.

Definition validation_step (dl : dataloader) : M (float * float) :=
  do! _ := model_eval in
  do! batches := iterate dl in
  do! sums := for_each batches validation_body (0, 0)%float in
  let '(average_acc, epoch_loss) := sums in
  do! mean_acc := lift (py_div_len average_acc (dl_len dl)) in
  do! mean_loss := lift (py_div_len epoch_loss (dl_len dl)) in
  ret (mean_acc, mean_loss).

(** The path of the checkpoint of an epoch. *)
Definition checkpoint_path (epoch : nat) : string :=
  original_cwd +:+ sep +:+ "saves" +:+ sep +:+ "model_early_stopping_"
    +:+ pretty epoch +:+ ".pkl".

(** The folder of the logs of a run. *)
Definition log_folder (pretrained : bool) (dropout : float) : string :=
  let folder := original_cwd +:+ sep +:+ "evaluation_data" +:+ sep in
  let folder := folder +:+ (if pretrained then "pretrained" else "untrained") in
  if (dropout =? 0)%float then folder +:+ sep +:+ "normal"
  else folder +:+ sep +:+ "dropout".

(** The loop body of [train]; the accumulator is [val_losses]. *)
Definition epoch_body (train_dataloader val_dataloader : dataloader)
    (pretrained : bool) (dropout : float)
    (epoch : nat) (val_losses : list float) : M (list float) :=
  do! _ := torch_save (checkpoint_path epoch) in
  do! tr := training_step train_dataloader in
  let '(train_acc, train_loss) := tr in
  do! va := validation_step val_dataloader in
  let '(val_acc, val_loss) := va in
  let val_losses := val_losses ++ [val_loss] in
  let folder := log_folder pretrained dropout in
  do! _ := write_to_file folder "train_accuracy.txt" (float_str train_acc) in
  do! _ := write_to_file folder "train_loss.txt" (float_str train_loss) in
  do! _ := write_to_file folder "val_accuracy.txt" (float_str val_acc) in
  do! _ := write_to_file folder "val_loss.txt" (float_str val_loss) in
  ret val_losses.

(** [for epoch in range(epochs)], from a given list of recorded losses. *)
Definition epoch_loop (train_dataloader val_dataloader : dataloader)
    (pretrained : bool) (dropout : float)
    (epochs : list nat) (val_losses : list float) : M (list float) :=
  for_each epochs
    (epoch_body train_dataloader val_dataloader pretrained dropout) val_losses.

(** What follows the loop: restore the best checkpoint, set the attribute
    [params] of the optimizer, end the log lines. *)
Definition restore_best (pretrained : bool) (dropout : float)
    (val_losses : list float) : M unit :=
  do! best := lift (np.argmin val_losses) in
  do! _ := torch_load (checkpoint_path best) in
  do! _ := modify (fun w =>
             set_opt (Optimizer (o_state (w_opt w)) (Some (AdamW (w_params w)))) w) in
  let folder := log_folder pretrained dropout in
  do! _ := write_to_file folder "train_accuracy.txt" nl in
  do! _ := write_to_file folder "train_loss.txt" nl in
  do! _ := write_to_file folder "val_accuracy.txt" nl in
  write_to_file folder "val_loss.txt" nl.

(** [train]; the model it returns is the one of the world. *)
Definition train (train_dataloader val_dataloader : dataloader) (epochs : Z)
    (pretrained : bool) (dropout : float) : M unit :=
  do! val_losses :=
    epoch_loop train_dataloader val_dataloader pretrained dropout
      (seq 0 (Z.to_nat epochs)) [] in
  restore_best pretrained dropout val_losses.

(** [[model(...)[1] for sample in range(T)]]: [range(None)] raises. *)
Definition mcd_samples (b : batch) (T : option Z) : M (list (list (list float))) :=
  match T with
  | None => raise TypeError
  | Some t =>
      for_each (seq 0 (Z.to_nat t))
        (fun _ samples =>
           do! predictions := call_model b in
           let '(_, logits, _) := predictions in
           ret (samples ++ [logits]))
        []
  end.

(** [np.array(samples)] needs every sample to have the shape of the first. *)
Definition same_shape (s0 s : list (list float)) : bool :=
  bool_decide (map length s = map length s0).

Definition rectangular (s0 : list (list float)) : bool :=
  match s0 with
  | [] => true
  | r0 :: _ => forallb (fun r => (length r =? length r0)%nat) s0
  end.

(** Lines 198 to 201: the class of each sample in each pass, then the mode
    over the passes. *)
Definition mcd_vote (samples : list (list (list float))) : result (list Z) :=
  match samples with
  | [] => Raise AxisError
  | s0 :: _ =>
      if rectangular s0 && forallb (same_shape s0) samples then
        try! predictions_mcd := rmap np.argmax_rows samples in
        stats.mode predictions_mcd
      else Raise ValueError
  end.

(** The local variables of [evaluate]. *)
Record eval_state := EvalState {
  confusion_matrix : matrix;
  confusion_matrix_mcd : matrix;
  average_acc : float;
  average_acc_mcd : float
}.

Definition eval_init : eval_state :=
  EvalState np.zeros33 np.zeros33 0%float 0%float.

(** The loop body of [evaluate]. *)
Definition evaluate_body (dropout : float) (T : option Z)
    (b : batch) (st : eval_state) : M eval_state :=
  do! _ := model_eval in
  do! out := call_model b in
  let '(_, logits, _) := out in
  do! predictions := lift (np.argmax_rows logits) in
  do! cm := lift (update_confusion_matrix (confusion_matrix st) predictions (b_labels b)) in
  do! batch_acc := lift (accuracy_score (b_labels b) predictions) in
  let acc := (average_acc st + batch_acc)%float in
  if (0 <? dropout)%float then
    do! _ := turn_on_dropout in
    do! samples := mcd_samples b T in
    do! predictions_mcd := lift (mcd_vote samples) in
    do! cm_mcd := lift (update_confusion_matrix (confusion_matrix_mcd st)
                          predictions_mcd (b_labels b)) in
    do! batch_acc_mcd := lift (accuracy_score (b_labels b) predictions_mcd) in
    ret (EvalState cm cm_mcd acc (average_acc_mcd st + batch_acc_mcd)%float)
  else
    ret (EvalState cm (confusion_matrix_mcd st) acc (average_acc_mcd st)).

Definition evaluate_loop (dl : dataloader) (dropout : float) (T : option Z) :
    M eval_state :=
  do! batches := iterate dl in
  for_each batches (evaluate_body dropout T) eval_init.

Definition evaluate (dl : dataloader) (pretrained : bool) (dropout : float)
    (T : option Z) : M float :=
  do! st := evaluate_loop dl dropout T in
  let folder := log_folder pretrained dropout in
  do! mean := lift (py_div_len (average_acc st) (dl_len dl)) in
  do! _ := write_to_file folder "test_accuracy.txt" (float_str mean +:+ nl) in
  do! _ := fs_append (folder +:+ sep +:+ "confusion_matrix.txt")
             (savetxt (confusion_matrix st)) in
  do! _ :=
    (if (0 <? dropout)%float then
       do! mean_mcd := lift (py_div_len (average_acc_mcd st) (dl_len dl)) in
       do! _ := write_to_file folder "test_accuracy_mcd.txt"
                  (float_str mean_mcd +:+ nl) in
       fs_append (folder +:+ sep +:+ "confusion_matrix_mcd.txt")
         (savetxt (confusion_matrix_mcd st))
     else ret tt) in
  lift (py_div_len (average_acc st) (dl_len dl)).

End Program.

Arguments batch {_}.
Arguments dataloader {_}.
Arguments optimizer {_}.
Arguments world {_}.
Arguments M {_} A.

(** ** A small instance, to run the definitions

    One integer weight, an optimizer that counts its steps and adds the
    gradient, and a classifier whose class for the feature [x] is
    [(x + weight) mod 3], shifted by the generator whenever a dropout module
    is in training mode. *)

Module Toy.

Definition one_hot (c : Z) : list float :=
  map (fun k => if (k =? c) then 1%float else 0%float) [0; 1; 2].

Definition noisy (ms : list module) : bool :=
  existsb (fun m => String.prefix "Dropout" (cls_name m) && training m) ms.

Definition toy_call (p : nat) (ms : list module) (g : nat) (xs labels : list Z) :
    (float * list (list float) * Z) * nat :=
  let shift := if noisy ms then Z.of_nat g else 0 in
  let logits := map (fun x => one_hot ((x + Z.of_nat p + shift) mod 3)) xs in
  let loss := if (p <? 2)%nat then 1%float else 0.5%float in
  ((loss, logits, 1), if noisy ms then S g else g).

Fixpoint tally (n : nat) : string :=
  match n with
  | O => ""
  | S n' => String "x" (tally n')
  end.

Definition toy_str (x : float) : string :=
  match Prim2SF x with
  | S754_zero _ => "0.0"
  | S754_infinity s => if s then "-inf" else "inf"
  | S754_nan => "nan"
  | S754_finite s m e =>
      (if s then "-" else "") +:+ pretty (Zpos m) +:+ "p" +:+ pretty e
  end.

#[export] Instance torch : Torch := {|
  state_dict := nat;
  opt_state := nat;
  generator := nat;
  inputs := list Z;
  graph := Z;
  gradients := Z;
  model_call := toy_call;
  zero_gradients := 0;
  backward := fun gr g => g + gr;
  step := fun s p g => (Z.to_nat (Z.of_nat p + g), S s);
  AdamW := fun _ => O;
  pickle := tally;
  unpickle := fun s => Some (String.length s);
  float_str := toy_str
|}.

#[export] Instance os : Os := {| original_cwd := "/run"; sep := "/" |}.

Definition bert : list module :=
  [Module "BertForSequenceClassification" false;
   Module "BertEmbeddings" false;
   Module "LayerNorm" false;
   Module "Dropout" false;
   Module "Linear" false].

Definition w0 : world :=
  World 0%nat bert 0 (Optimizer O None) 0%nat ∅ [].

(** A dataloader that yields the given batches in order. *)
Definition fixed (bs : list batch) : dataloader :=
  Dataloader (length bs)
    (fun _ i => nth i bs (Batch [] []))
    (fun g => g).

(** Three batches of sizes 2, 2 and 4; with weight 0 the accuracies of the
    point predictions are 1, 1/2 and 0. *)
Definition three_batches : dataloader :=
  fixed [Batch [0; 1] [0; 1]; Batch [0; 1] [0; 2]; Batch [0; 0; 1; 1] [1; 1; 2; 2]].

(** Three batches of sizes 2, 2 and 4 for a training pass from weight 0:
    the weight is 0, 1 and 2 when they are seen, and their accuracies are
    1, 1/2 and 0. *)
Definition training_batches : dataloader :=
  fixed [Batch [0; 1] [0; 1]; Batch [0; 1] [1; 0]; Batch [0; 0; 1; 1] [0; 0; 1; 1]].

(** The same model with a loss that is a NaN from weight 2 on, and a
    dataloader of one batch for it. *)
Definition diverging_call (p : nat) (ms : list module) (g : nat)
    (xs labels : list Z) : (float * list (list float) * Z) * nat :=
  let '(loss, logits, gr, g') := toy_call p ms g xs labels in
  ((if (2 <=? p)%nat then nan else loss, logits, gr), g').

Definition diverging : Torch := {|
  state_dict := nat;
  opt_state := nat;
  generator := nat;
  inputs := list Z;
  graph := Z;
  gradients := Z;
  model_call := diverging_call;
  zero_gradients := 0;
  backward := fun gr g => g + gr;
  step := fun s p g => (Z.to_nat (Z.of_nat p + g), S s);
  AdamW := fun _ => O;
  pickle := tally;
  unpickle := fun s => Some (String.length s);
  float_str := toy_str
|}.

Definition diverging_batch : @dataloader diverging :=
  @Dataloader diverging 1
    (fun _ _ => @Batch diverging [0; 1; 2] [0; 1; 2]) (fun g => g).

Definition diverging_w0 : @world diverging :=
  @World diverging 0%nat bert 0 (@Optimizer diverging O None) 0%nat ∅ [].

Definition first_batch : batch := Batch [0; 1] [0; 1].

Definition one_batch : dataloader := fixed [Batch [0; 1; 2] [0; 1; 2]].

End Toy.

(** ** The notions the statements use *)

(** [x] is a minimum of [l] in numpy's sense: it occurs in [l] and either
    is a NaN or is below every element (so that [l] holds no NaN). *)
Definition attains_minimum (l : list float) (x : float) : Prop :=
  x ∈ l /\ (PrimFloat.is_nan x = true \/ forall y, y ∈ l -> (x <=? y)%float = true).

(** [j] is the first index of [l] that holds a minimum of [l]. *)
Definition first_minimum (l : list float) (j : nat) : Prop :=
  exists x, l !! j = Some x /\ attains_minimum l x /\
    forall k y, (k < j)%nat -> l !! k = Some y -> ~ attains_minimum l y.

(** [v] is the statistical mode of [l], the lowest one on ties. *)
Definition is_mode (l : list Z) (v : Z) : Prop :=
  v ∈ l /\
  forall u, (count_occ Z.eq_dec l u <= count_occ Z.eq_dec l v)%nat /\
            (count_occ Z.eq_dec l u = count_occ Z.eq_dec l v -> v <= u).

(** The number of samples with true label [l] and predicted class [p]. *)
Definition count_pairs (labels predictions : list Z) (l p : Z) : Z :=
  Z.of_nat (length (filter (fun '(t, q) => t = l /\ q = p) (zip labels predictions))).

(** The sum a loop builds with [acc += x], from the integer 0. *)
Definition running_sum (xs : list float) : float :=
  fold_left PrimFloat.add xs 0%float.

(** A matrix with [n] rows of [m] cells. *)
Definition rect (n m : nat) (cm : matrix) : Prop :=
  length cm = n /\ Forall (fun row => length row = m) cm.

Definition in_range (n : nat) (l : list Z) : Prop :=
  Forall (fun x => 0 <= x < Z.of_nat n) l.

(** The loop of [update_confusion_matrix] over the pairs (label, prediction). *)
Fixpoint update_pairs (cm : matrix) (pairs : list (Z * Z)) : result matrix :=
  match pairs with
  | [] => Ok cm
  | (l, p) :: rest => try! cm' := incr_cell cm l p in update_pairs cm' rest
  end.

Definition count_in (pairs : list (Z * Z)) (l p : Z) : Z :=
  Z.of_nat (length (filter (fun '(t, q) => t = l /\ q = p) pairs)).

(** A computation relates the world it starts in to the one it leaves,
    whether it returns or raises. *)
Definition preserves `{Torch} {A} (R : relation world) (m : M A) : Prop :=
  forall w r w', m w = (r, w') -> R w w'.

(** The component [f] of the world is left as it was. *)
Definition same `{Torch} {X} (f : world -> X) : relation world :=
  fun w w' => f w' = f w.

(** The forward passes logged between two worlds. *)
Definition new_calls `{Torch} (w w' : world) (calls : list (list module)) : Prop :=
  w_calls w' = calls ++ w_calls w.

(** Only dropout modules are in training mode. *)
Definition only_dropout_trains (ms : list module) : Prop :=
  Forall (fun m => training m = true -> String.prefix "Dropout" (cls_name m) = true) ms.

(** With these modes, [calls] records at most [n] forward passes. *)
Definition calls_within `{Torch} (P : list module -> Prop) (n : nat) : relation world :=
  fun w w' => exists calls, new_calls w w' calls /\ (length calls <= n)%nat /\ Forall P calls.

(** From a world where only dropout modules train, a computation leaves
    such a world and logs only forward passes made in such modes. *)
Definition mcd_safe `{Torch} : relation world :=
  fun w w' =>
    only_dropout_trains (w_modules w) ->
    only_dropout_trains (w_modules w') /\
    exists calls, new_calls w w' calls /\ Forall only_dropout_trains calls.

(** The accuracy and the loss of one batch in [training_step]: the body of
    its loop without the two running sums. *)
Definition training_batch `{Torch} (b : batch) : M (float * float) :=
  bind optimizer_zero_grad (fun _ =>
  bind (call_model b) (fun predictions =>
  let '(loss, logits, gr) := predictions in
  bind (lift (np.argmax_rows logits)) (fun classes =>
  bind (lift (accuracy_score (b_labels b) classes)) (fun acc =>
  bind (loss_backward gr) (fun _ =>
  bind optimizer_step (fun _ =>
  ret (acc, loss))))))).

(** The same for [validation_step]. *)
Definition validation_batch `{Torch} (b : batch) : M (float * float) :=
  bind (call_model b) (fun predictions =>
  let '(loss, logits, _) := predictions in
  bind (lift (np.argmax_rows logits)) (fun classes =>
  bind (lift (accuracy_score (b_labels b) classes)) (fun acc =>
  ret (acc, loss)))).

(** The (accuracy, loss) pairs of the batches of one pass, in order. *)
Definition per_batch `{Torch} (one : batch -> M (float * float))
    (batches : list batch) (ms : list (float * float)) : M (list (float * float)) :=
  for_each batches (fun b ms => bind (one b) (fun m => ret (ms ++ [m]))) ms.

Definition training_metrics `{Torch} (dl : dataloader) : M (list (float * float)) :=
  bind model_train (fun _ =>
  bind (iterate dl) (fun batches => per_batch training_batch batches [])).

Definition validation_metrics `{Torch} (dl : dataloader) : M (list (float * float)) :=
  bind model_eval (fun _ =>
  bind (iterate dl) (fun batches => per_batch validation_batch batches [])).

(** The unweighted means over [n] batches: (mean accuracy, mean loss). *)
Definition batch_means (n : nat) (ms : list (float * float)) : float * float :=
  ((running_sum (map fst ms) / float_of_nat n)%float,
   (running_sum (map snd ms) / float_of_nat n)%float).

(** All modules are in evaluation mode. *)
Definition all_eval (ms : list module) : Prop :=
  Forall (fun m => training m = false) ms.

(** A path that is no log file of the run. *)
Definition not_a_log `{Os} (pretrained : bool) (dropout : float) (p : string) : Prop :=
  forall file, p <> log_folder pretrained dropout +:+ sep +:+ file.


(** The text [train] appends to a log file for a list of values: each one
    followed by a blank. *)
Definition log_line `{Torch} (xs : list float) : string :=
  fold_right String.append "" (map (fun x => float_str x +:+ " ") xs).

(** The modes [evaluate] leaves the modules in after a batch. *)
Definition modes_after_batch (dropout : float) (ms : list module) : list module :=
  if (0 <? dropout)%float
  then turn_on_dropout_modules (map (set_training false) ms)
  else map (set_training false) ms.

(** The model answers the batch with one row of three logits per label,
    whatever its parameters, modes and generator are. *)
Definition well_shaped `{Torch} (b : batch) : Prop :=
  forall p ms g,
    let logits := (model_call p ms g (b_inputs b) (b_labels b)).1.1.2 in
    length logits = length (b_labels b) /\
    Forall (fun row => length row = 3%nat) logits.

(** Every label of the batch is one of the classes 0, 1, 2. *)
Definition labelled `{Torch} (b : batch) : Prop := in_range 3 (b_labels b).


(** * Proofs *)

(** ** The order of floats *)

Module FloatOrder.

Lemma SFcompare_refl x : x <> S754_nan -> SFcompare x x = Some Eq.
Proof.
  destruct x as [[]|[]| |[] m e]; simpl; try congruence; intros _;
    rewrite Z.compare_refl, Pos.compare_cont_refl; reflexivity.
Qed.

Lemma SFleb_trans x y z :
  SFleb x y = true -> SFleb y z = true -> SFleb x z = true.
Proof.
  unfold SFleb.
  destruct x as [[]|[]| |[] m1 e1], y as [[]|[]| |[] m2 e2],
           z as [[]|[]| |[] m3 e3];
    simpl; try congruence; try reflexivity.
  all: fold (Pos.compare m1 m2); fold (Pos.compare m2 m3);
    fold (Pos.compare m1 m3).
  all: destruct (Z.compare_spec e1 e2), (Z.compare_spec e2 e3),
    (Z.compare_spec e1 e3); try congruence; try reflexivity; try lia.
  all: destruct (Pos.compare_spec m1 m2), (Pos.compare_spec m2 m3),
    (Pos.compare_spec m1 m3); simpl; try congruence; try reflexivity; try lia.
Qed.

Lemma SFleb_total x y :
  x <> S754_nan -> y <> S754_nan -> SFleb x y = false -> SFleb y x = true.
Proof.
  unfold SFleb.
  destruct x as [[]|[]| |[] m1 e1], y as [[]|[]| |[] m2 e2];
    simpl; try congruence; try reflexivity; intros _ _.
  all: fold (Pos.compare m1 m2); fold (Pos.compare m2 m1).
  all: destruct (Z.compare_spec e1 e2), (Z.compare_spec e2 e1);
    try congruence; try reflexivity; try lia.
  all: destruct (Pos.compare_spec m1 m2), (Pos.compare_spec m2 m1);
    simpl; try congruence; try reflexivity; try lia.
Qed.

Lemma is_nan_spec x : PrimFloat.is_nan x = true <-> Prim2SF x = S754_nan.
Proof.
  unfold PrimFloat.is_nan. rewrite FloatAxioms.eqb_spec. unfold SFeqb. split.
  - intros Hx. destruct (Prim2SF x) eqn:E; try reflexivity;
      rewrite SFcompare_refl in Hx by congruence; discriminate.
  - intros ->. reflexivity.
Qed.

Lemma not_nan_spec x : PrimFloat.is_nan x = false <-> Prim2SF x <> S754_nan.
Proof.
  rewrite <- is_nan_spec. destruct (PrimFloat.is_nan x); split; congruence.
Qed.

Lemma leb_trans x y z :
  (x <=? y)%float = true -> (y <=? z)%float = true -> (x <=? z)%float = true.
Proof. rewrite !FloatAxioms.leb_spec. apply SFleb_trans. Qed.

Lemma leb_total x y :
  PrimFloat.is_nan x = false -> PrimFloat.is_nan y = false ->
  (x <=? y)%float = false -> (y <=? x)%float = true.
Proof. rewrite !FloatAxioms.leb_spec, !not_nan_spec. apply SFleb_total. Qed.

Lemma leb_refl x : PrimFloat.is_nan x = false -> (x <=? x)%float = true.
Proof.
  rewrite FloatAxioms.leb_spec, not_nan_spec. intros Hx. unfold SFleb.
  rewrite SFcompare_refl; auto.
Qed.

Lemma leb_nan_l x y : PrimFloat.is_nan x = true -> (x <=? y)%float = false.
Proof. rewrite FloatAxioms.leb_spec, is_nan_spec. intros ->. reflexivity. Qed.

Lemma leb_nan_r x y : PrimFloat.is_nan y = true -> (x <=? y)%float = false.
Proof.
  rewrite FloatAxioms.leb_spec, is_nan_spec. intros ->. unfold SFleb.
  destruct (Prim2SF x); reflexivity.
Qed.

Lemma leb_not_nan x y :
  (x <=? y)%float = true ->
  PrimFloat.is_nan x = false /\ PrimFloat.is_nan y = false.
Proof.
  intros Hxy. split.
  - destruct (PrimFloat.is_nan x) eqn:E; [|reflexivity].
    rewrite (leb_nan_l x y E) in Hxy. discriminate.
  - destruct (PrimFloat.is_nan y) eqn:E; [|reflexivity].
    rewrite (leb_nan_r x y E) in Hxy. discriminate.
Qed.

(** [dropout == 0] excludes [dropout > 0]. *)
Lemma eqb_zero_not_pos d : (d =? 0)%float = true -> (0 <? d)%float = false.
Proof.
  rewrite FloatAxioms.eqb_spec, FloatAxioms.ltb_spec. unfold SFeqb, SFltb.
  change (Prim2SF 0) with (S754_zero false).
  destruct (Prim2SF d) as [[]|[]| |[] m e]; simpl; congruence.
Qed.

End FloatOrder.

(** ** [np.argmin]: the first index of the minimum *)

Section Argmin.
Import FloatOrder.

Lemma attains_minimum_prefix pre rest y :
  y ∈ pre -> attains_minimum (pre ++ rest) y -> attains_minimum pre y.
Proof.
  intros Hy [_ [Hn | Hle]]; split; auto.
  right. intros z Hz. apply Hle. apply elem_of_app. auto.
Qed.

Lemma first_minimum_snoc_keep pre x mi mp :
  pre !! mi = Some mp -> PrimFloat.is_nan mp = false ->
  (mp <=? x)%float = true ->
  first_minimum pre mi -> first_minimum (pre ++ [x]) mi.
Proof.
  intros Hmi Hnan Hle (m & Hm & [Hin Hmin] & Hfirst).
  assert (m = mp) as -> by congruence.
  exists mp. split; [by apply lookup_app_l_Some|]. split.
  - split; [apply elem_of_app; auto|]. right.
    destruct Hmin as [Hmin|Hmin]; [congruence|].
    intros y [Hy | ->%list_elem_of_singleton]%elem_of_app; auto.
  - intros k y Hk Hky Hatt.
    assert (Hlt : (k < length pre)%nat).
    { apply lookup_lt_Some in Hmi. lia. }
    rewrite lookup_app_l in Hky by done.
    eapply Hfirst; eauto. eapply attains_minimum_prefix; eauto.
    eapply list_elem_of_lookup_2; eauto.
Qed.

Lemma first_minimum_snoc_new pre x mi mp :
  pre !! mi = Some mp -> PrimFloat.is_nan mp = false ->
  (mp <=? x)%float = false ->
  first_minimum pre mi -> first_minimum (pre ++ [x]) (length pre).
Proof.
  intros Hmi Hnan Hle (m & Hm & [Hin Hmin] & Hfirst).
  assert (m = mp) as -> by congruence.
  destruct Hmin as [Hmin|Hmin]; [congruence|].
  exists x. split; [by rewrite list_lookup_middle|].
  assert (Hx : x ∈ pre ++ [x]) by (apply elem_of_app; right; by apply list_elem_of_singleton).
  destruct (PrimFloat.is_nan x) eqn:Hxn.
  - split; [split; auto|].
    intros k y Hk Hky [_ [Hyn | Hyle]].
    + rewrite lookup_app_l in Hky by done.
      apply list_elem_of_lookup_2 in Hky. apply Hmin in Hky.
      apply leb_not_nan in Hky. destruct Hky; congruence.
    + specialize (Hyle x Hx). rewrite (leb_nan_r y x Hxn) in Hyle. discriminate.
  - assert (Hxm : (x <=? mp)%float = true) by (apply leb_total; auto).
    split; [split; auto|].
    + right. intros y [Hy | ->%list_elem_of_singleton]%elem_of_app.
      * eapply leb_trans; eauto.
      * by apply leb_refl.
    + intros k y Hk Hky [_ [Hyn | Hyle]].
      * rewrite lookup_app_l in Hky by done.
        apply list_elem_of_lookup_2 in Hky. apply Hmin in Hky.
        apply leb_not_nan in Hky. destruct Hky; congruence.
      * rewrite lookup_app_l in Hky by done.
        apply list_elem_of_lookup_2 in Hky. apply Hmin in Hky.
        specialize (Hyle x Hx).
        rewrite (leb_trans _ _ _ Hky Hyle) in Hle. discriminate.
Qed.

Lemma first_minimum_nan pre rest mi mp :
  pre !! mi = Some mp -> PrimFloat.is_nan mp = true ->
  first_minimum pre mi -> first_minimum (pre ++ rest) mi.
Proof.
  intros Hmi Hnan (m & Hm & [Hin Hmin] & Hfirst).
  assert (m = mp) as -> by congruence.
  exists mp. split; [by apply lookup_app_l_Some|]. split.
  - split; [apply elem_of_app; auto|]. by left.
  - intros k y Hk Hky Hatt.
    assert (Hlt : (k < length pre)%nat).
    { apply lookup_lt_Some in Hmi. lia. }
    rewrite lookup_app_l in Hky by done.
    eapply Hfirst; eauto. eapply attains_minimum_prefix; eauto.
    eapply list_elem_of_lookup_2; eauto.
Qed.

Lemma argmin_scan_spec rest : forall pre mp mi,
  pre !! mi = Some mp -> first_minimum pre mi ->
  first_minimum (pre ++ rest) (np.argmin_scan mp mi (length pre) rest).
Proof.
  induction rest as [|x rest IH]; intros pre mp mi Hmi Hfirst; simpl.
  - by rewrite app_nil_r.
  - destruct (PrimFloat.is_nan mp) eqn:Hnan.
    + eapply first_minimum_nan; eauto.
    + destruct (mp <=? x)%float eqn:Hle; simpl.
      * replace (pre ++ x :: rest) with ((pre ++ [x]) ++ rest) by (by rewrite <- app_assoc).
        replace (S (length pre)) with (length (pre ++ [x])) by (rewrite length_app; simpl; lia).
        apply IH; [by apply lookup_app_l_Some|].
        eapply first_minimum_snoc_keep; eauto.
      * replace (pre ++ x :: rest) with ((pre ++ [x]) ++ rest) by (by rewrite <- app_assoc).
        replace (S (length pre)) with (length (pre ++ [x])) by (rewrite length_app; simpl; lia).
        apply IH; [by rewrite list_lookup_middle|].
        eapply first_minimum_snoc_new; eauto.
Qed.

Lemma first_minimum_singleton x : first_minimum [x] 0.
Proof.
  exists x. split; [done|]. split.
  - split; [by apply list_elem_of_singleton|].
    destruct (PrimFloat.is_nan x) eqn:E; [by left|right].
    intros y ->%list_elem_of_singleton. by apply leb_refl.
  - intros k y Hk. lia.
Qed.

Lemma argmin_spec l j : np.argmin l = Ok j -> first_minimum l j.
Proof.
  destruct l as [|x l]; simpl; [discriminate|].
  intros [= <-]. apply (argmin_scan_spec l [x] x 0%nat); [done|].
  apply first_minimum_singleton.
Qed.



End Argmin.


(** ** [stats.mode]: the most frequent value, the lowest on ties *)

Section Mode.

Lemma argmax_nat_scan_spec rest : forall pre mp mi,
  pre !! mi = Some mp ->
  (forall k d, pre !! k = Some d -> (d <= mp)%nat) ->
  (forall k d, (k < mi)%nat -> pre !! k = Some d -> (d < mp)%nat) ->
  let i := np.argmax_nat_scan mp mi (length pre) rest in
  exists c, (pre ++ rest) !! i = Some c /\
    (forall k d, (pre ++ rest) !! k = Some d -> (d <= c)%nat) /\
    (forall k d, (k < i)%nat -> (pre ++ rest) !! k = Some d -> (d < c)%nat).
Proof.
  induction rest as [|x rest IH]; intros pre mp mi Hmi Hmax Hfirst; simpl.
  - rewrite app_nil_r. eauto.
  - replace (pre ++ x :: rest) with ((pre ++ [x]) ++ rest) by (by rewrite <- app_assoc).
    replace (S (length pre)) with (length (pre ++ [x])) by (rewrite length_app; simpl; lia).
    assert (Hlen : (mi < length pre)%nat) by (by eapply lookup_lt_Some).
    destruct (mp <? x)%nat eqn:Hlt.
    + apply Nat.ltb_lt in Hlt. apply IH.
      * by rewrite list_lookup_middle.
      * intros k d [Hk | [_ [_ <-]%list_lookup_singleton_Some]]%lookup_app_Some; [|lia].
        apply Hmax in Hk. lia.
      * intros k d Hk Hkd. rewrite lookup_app_l in Hkd by done.
        apply Hmax in Hkd. lia.
    + apply Nat.ltb_ge in Hlt. apply IH.
      * by apply lookup_app_l_Some.
      * intros k d [Hk | [_ [_ <-]%list_lookup_singleton_Some]]%lookup_app_Some; [|lia].
        by apply Hmax in Hk.
      * intros k d Hk Hkd. rewrite lookup_app_l in Hkd by lia. eauto.
Qed.

Lemma argmax_nat_spec l i :
  np.argmax_nat l = Ok i ->
  exists c, l !! i = Some c /\
    (forall k d, l !! k = Some d -> (d <= c)%nat) /\
    (forall k d, (k < i)%nat -> l !! k = Some d -> (d < c)%nat).
Proof.
  destruct l as [|x l]; simpl; [discriminate|]. intros [= <-].
  apply (argmax_nat_scan_spec l [x] x 0%nat); [done| |].
  - intros k d [-> [= <-]]%list_lookup_singleton_Some. lia.
  - intros k d Hk. lia.
Qed.

Lemma elem_of_unique l x : x ∈ np.unique l <-> x ∈ l.
Proof.
  unfold np.unique. rewrite merge_sort_Permutation. apply elem_of_remove_dups.
Qed.

Lemma unique_sorted l : StronglySorted Z.le (np.unique l).
Proof.
  apply StronglySorted_merge_sort.
  - intros x y z. lia.
  - intros x y. lia.
Qed.

Lemma StronglySorted_lookup_le (l : list Z) i j x y :
  StronglySorted Z.le l -> (i <= j)%nat ->
  l !! i = Some x -> l !! j = Some y -> x <= y.
Proof.
  intros Hs. revert i j x y.
  induction Hs as [|a l Hs IH Hall]; intros i j x y Hij Hi Hj.
  - done.
  - destruct i as [|i], j as [|j]; simpl in *; try lia.
    + simplify_eq. lia.
    + simplify_eq. rewrite Forall_forall in Hall. apply Hall.
      eapply list_elem_of_lookup_2; eauto.
    + eapply (IH i j); [lia|eauto..].
Qed.

Lemma count_occ_pos_elem (l : list Z) v : (0 < count_occ Z.eq_dec l v)%nat <-> v ∈ l.
Proof.
  rewrite list_elem_of_In, (count_occ_In Z.eq_dec). unfold gt. reflexivity.
Qed.

Lemma mode1_spec l v : stats.mode1 l = Ok v -> is_mode l v.
Proof.
  unfold stats.mode1.
  destruct (np.argmax_nat (stats.counts l (np.unique l))) as [i|] eqn:Harg; simpl; [|discriminate].
  destruct (np.unique l !! i) as [v'|] eqn:Hv; [|discriminate]. intros [= ->].
  apply argmax_nat_spec in Harg as (c & Hc & Hmax & Hfirst).
  unfold stats.counts in *. rewrite list_lookup_fmap, Hv in Hc. simpl in Hc.
  injection Hc as <-.
  assert (Hin : v ∈ l) by (apply elem_of_unique; eapply list_elem_of_lookup_2; eauto).
  split; [done|]. intros u.
  destruct (decide (u ∈ l)) as [Hu|Hu].
  - apply elem_of_unique, list_elem_of_lookup in Hu as [k Hk].
    assert (Hck : map (fun v => count_occ Z.eq_dec l v) (np.unique l) !! k
                  = Some (count_occ Z.eq_dec l u)).
    { by rewrite list_lookup_fmap, Hk. }
    split; [eauto|]. intros Heq.
    destruct (decide (k < i)%nat) as [Hlt|Hge].
    + specialize (Hfirst _ _ Hlt Hck). lia.
    + eapply (StronglySorted_lookup_le _ i k); eauto using unique_sorted. lia.
  - assert (count_occ Z.eq_dec l u = 0%nat) as ->.
    { apply count_occ_not_In. by rewrite <- list_elem_of_In. }
    apply count_occ_pos_elem in Hin. split; lia.
Qed.


Lemma is_mode_unique l u v : is_mode l u -> is_mode l v -> u = v.
Proof.
  intros [_ Hu] [_ Hv].
  destruct (Hu v) as [Hvu Htu], (Hv u) as [Huv Htv].
  assert (Heq : count_occ Z.eq_dec l u = count_occ Z.eq_dec l v) by lia.
  specialize (Htv Heq). symmetry in Heq. specialize (Htu Heq). lia.
Qed.

End Mode.

(** ** [update_confusion_matrix]: pure accumulation *)

Section Confusion.

Lemma index_in_range n i :
  0 <= i < Z.of_nat n -> np.index n i = Ok (Z.to_nat i).
Proof.
  intros Hi. unfold np.index.
  destruct (0 <=? i) eqn:E1; [|lia]. destruct (i <? Z.of_nat n) eqn:E2; [done|lia].
Qed.

Lemma update_loop_pairs predictions labels k : forall i cm,
  (i + k <= length predictions)%nat -> (i + k <= length labels)%nat ->
  update_loop cm predictions labels (seq i k)
  = update_pairs cm (take k (drop i (zip labels predictions))).
Proof.
  induction k as [|k IH]; intros i cm Hp Hl; simpl.
  - done.
  - destruct (lookup_lt_is_Some_2 labels i) as [l Hli]; [lia|].
    destruct (lookup_lt_is_Some_2 predictions i) as [p Hpi]; [lia|].
    rewrite Hli, Hpi.
    assert (Hz : zip labels predictions !! i = Some (l, p)).
    { apply lookup_zip_with_Some. eauto. }
    rewrite (drop_S _ _ _ Hz). simpl.
    destruct (incr_cell cm l p) as [cm'|e]; simpl; [|done].
    apply IH; lia.
Qed.

Lemma update_confusion_matrix_pairs cm predictions labels :
  length predictions = length labels ->
  update_confusion_matrix cm predictions labels
  = update_pairs cm (zip labels predictions).
Proof.
  intros Hlen. unfold update_confusion_matrix.
  rewrite update_loop_pairs by lia. rewrite drop_0.
  rewrite take_ge; [done|]. rewrite length_zip_with. lia.
Qed.

Lemma incr_cell_spec n m cm l p :
  rect n m cm -> 0 <= l < Z.of_nat n -> 0 <= p < Z.of_nat m ->
  exists cm', incr_cell cm l p = Ok cm' /\ rect n m cm' /\
    forall r c, cell cm' r c =
      (fun v => if decide (r = Z.to_nat l /\ c = Z.to_nat p) then v + 1 else v)
        <$> cell cm r c.
Proof.
  intros [Hn Hm] Hl Hp. unfold incr_cell.
  rewrite Hn, index_in_range by done. cbn [rbind].
  destruct (lookup_lt_is_Some_2 cm (Z.to_nat l)) as [row Hrow]; [lia|].
  rewrite Hrow.
  assert (Hlen : length row = m).
  { rewrite Forall_forall in Hm. apply Hm. eapply list_elem_of_lookup_2; eauto. }
  rewrite Hlen, index_in_range by done. cbn [rbind].
  destruct (lookup_lt_is_Some_2 row (Z.to_nat p)) as [v Hv]; [lia|].
  rewrite Hv. eexists. split; [done|]. split.
  - split; [by rewrite length_insert|].
    apply Forall_insert; [done|]. by rewrite length_insert.
  - intros r c. unfold cell.
    destruct (decide (r = Z.to_nat l)) as [->|Hr].
    + rewrite list_lookup_insert_eq by lia. rewrite Hrow.
      destruct (decide (c = Z.to_nat p)) as [->|Hc].
      * rewrite list_lookup_insert_eq by lia. rewrite Hv. simpl.
        by rewrite decide_True.
      * rewrite list_lookup_insert_ne by done.
        destruct (row !! c); simpl; [|done]. rewrite decide_False; [done|tauto].
    + rewrite list_lookup_insert_ne by done.
      destruct (cm !! r) as [row'|]; simpl; [|done].
      destruct (row' !! c); simpl; [|done]. rewrite decide_False; [done|tauto].
Qed.

Lemma count_in_cons t q pairs l p :
  count_in ((t, q) :: pairs) l p
  = (if decide (t = l /\ q = p) then 1 else 0) + count_in pairs l p.
Proof.
  unfold count_in. rewrite filter_cons.
  destruct (decide (t = l /\ q = p)); simpl; lia.
Qed.

Lemma update_pairs_spec n m pairs : forall cm,
  rect n m cm ->
  Forall (fun '(l, p) => 0 <= l < Z.of_nat n /\ 0 <= p < Z.of_nat m) pairs ->
  exists cm', update_pairs cm pairs = Ok cm' /\ rect n m cm' /\
    forall r c, cell cm' r c =
      (fun v => v + count_in pairs (Z.of_nat r) (Z.of_nat c)) <$> cell cm r c.
Proof.
  induction pairs as [|[l p] pairs IH]; intros cm Hrect Hall; simpl.
  - exists cm. split; [done|]. split; [done|]. intros r c.
    destruct (cell cm r c); simpl; [|done]. unfold count_in. simpl. f_equal. lia.
  - apply Forall_cons in Hall as [[Hl Hp] Hall'].
    destruct (incr_cell_spec n m cm l p) as (cm1 & -> & Hrect1 & Hcell1); [done..|].
    simpl. destruct (IH cm1 Hrect1 Hall') as (cm' & -> & Hrect' & Hcell').
    exists cm'. split; [done|]. split; [done|]. intros r c.
    rewrite Hcell', Hcell1, count_in_cons.
    destruct (cell cm r c) as [v|]; simpl; [|done]. f_equal.
    destruct (decide (r = Z.to_nat l /\ c = Z.to_nat p)) as [[-> ->]|Hne].
    + rewrite decide_True by lia. lia.
    + rewrite decide_False by lia. lia.
Qed.

Lemma Forall_zip_in_range n m labels predictions :
  in_range n labels -> in_range m predictions ->
  Forall (fun '(l, p) => 0 <= l < Z.of_nat n /\ 0 <= p < Z.of_nat m)
    (zip labels predictions).
Proof.
  intros Hl. revert predictions.
  induction Hl as [|l labels Hl0 Hl IH]; intros predictions Hp; [constructor|].
  destruct Hp as [|p predictions Hp0 Hp]; simpl; [constructor|].
  constructor; [done|]. by apply IH.
Qed.

Lemma update_confusion_matrix_spec n m cm predictions labels :
  rect n m cm -> length predictions = length labels ->
  in_range n labels -> in_range m predictions ->
  exists cm', update_confusion_matrix cm predictions labels = Ok cm' /\
    rect n m cm' /\
    forall r c, cell cm' r c =
      (fun v => v + count_pairs labels predictions (Z.of_nat r) (Z.of_nat c))
        <$> cell cm r c.
Proof.
  intros Hrect Hlen Hl Hp. rewrite update_confusion_matrix_pairs by done.
  apply update_pairs_spec; [done|]. by apply Forall_zip_in_range.
Qed.



End Confusion.

(** ** The state monad: inversion and frame rules *)

Section Logic.
Context `{Torch} `{Os}.

Lemma bind_Ok {A B} (m : M A) (k : A -> M B) w b w' :
  bind m k w = (Ok b, w') <->
  exists a w1, m w = (Ok a, w1) /\ k a w1 = (Ok b, w').
Proof.
  unfold bind. destruct (m w) as [[a|e] w1]; split.
  - eauto.
  - by intros (? & ? & [= -> ->] & ?).
  - discriminate.
  - by intros (? & ? & [=] & ?).
Qed.

Lemma bind_Raise {A B} (m : M A) (k : A -> M B) w e w' :
  bind m k w = (Raise e, w') <->
  m w = (Raise e, w') \/ exists a w1, m w = (Ok a, w1) /\ k a w1 = (Raise e, w').
Proof.
  unfold bind. destruct (m w) as [[a|e0] w1]; split.
  - eauto.
  - intros [[=]|(? & ? & [= -> ->] & ?)]. done.
  - intros [= -> ->]. by left.
  - intros [[= -> ->]|(? & ? & [=] & ?)]. done.
Qed.

Lemma bind_cases {A B} (m : M A) (k : A -> M B) w r w' :
  bind m k w = (r, w') ->
  (exists e, m w = (Raise e, w') /\ r = Raise e) \/
  exists a w1, m w = (Ok a, w1) /\ k a w1 = (r, w').
Proof.
  unfold bind. destruct (m w) as [[a|e] w1].
  - eauto.
  - intros [= <- <-]. eauto.
Qed.


Lemma bind_run_Raise {A B} (m : M A) (k : A -> M B) w e w1 :
  m w = (Raise e, w1) -> bind m k w = (Raise e, w1).
Proof. unfold bind. by intros ->. Qed.

Lemma for_each_app {A S} (l1 l2 : list A) (body : A -> S -> M S) s w :
  for_each (l1 ++ l2) body s w
  = bind (for_each l1 body s) (for_each l2 body) w.
Proof.
  revert s w. induction l1 as [|a l1 IH]; intros s w; simpl.
  - done.
  - unfold bind in *. destruct (body a s w) as [[s'|e] w1]; [|done].
    apply IH.
Qed.

(** *** Frame rules *)

Lemma preserves_ret {A} (R : relation world) `{!Reflexive R} (a : A) :
  preserves R (ret a).
Proof. intros w r w' [= <- <-]. reflexivity. Qed.

Lemma preserves_raise {A} (R : relation world) `{!Reflexive R} e :
  preserves R (raise (A:=A) e).
Proof. intros w r w' [= <- <-]. reflexivity. Qed.

Lemma preserves_lift {A} (R : relation world) `{!Reflexive R} (x : result A) :
  preserves R (lift x).
Proof. intros w r w' [= <- <-]. reflexivity. Qed.

Lemma preserves_modify (R : relation world) f :
  (forall w, R w (f w)) -> preserves R (modify f).
Proof. intros Hf w r w' [= <- <-]. apply Hf. Qed.

Lemma preserves_bind {A B} (R : relation world) `{!Transitive R}
    (m : M A) (k : A -> M B) :
  preserves R m -> (forall a, preserves R (k a)) -> preserves R (bind m k).
Proof.
  intros Hm Hk w r w'. unfold bind.
  destruct (m w) as [[a|e] w1] eqn:E.
  - intros Hka. etrans; [eapply Hm|eapply Hk]; eauto.
  - intros [= <- <-]. eapply Hm; eauto.
Qed.

Lemma preserves_for_each {A S} (R : relation world) `{!PreOrder R}
    (l : list A) (body : A -> S -> M S) s :
  (forall a s, preserves R (body a s)) -> preserves R (for_each l body s).
Proof.
  intros Hbody. revert s. induction l as [|a l IH]; intros s; simpl.
  - apply preserves_ret, _.
  - apply preserves_bind; [apply _|apply Hbody|apply IH].
Qed.

Global Instance same_preorder {X} (f : world -> X) : PreOrder (same f).
Proof.
  split.
  - intros w. reflexivity.
  - intros w1 w2 w3 H12 H23. unfold same in *. congruence.
Qed.

End Logic.

Ltac minv_step :=
  match goal with
  | E : bind _ _ _ = (Ok _, _) |- _ =>
      let a := fresh "a" in
      let w := fresh "w" in
      let E1 := fresh "E" in
      apply bind_Ok in E as (a & w & E1 & E); cbv beta in E
  | E : lift _ _ = (_, _) |- _ => unfold lift in E
  | E : ret _ _ = (_, _) |- _ => unfold ret in E
  | E : modify _ _ = (_, _) |- _ => unfold modify in E
  | E : (_, _) = (_, _) |- _ => injection E as ? ?; subst
  | E : (let '(_, _) := ?x in _) _ = _ |- _ => destruct x
  | E : (if ?b then _ else _) _ = _ |- _ =>
      let Hb := fresh "Hb" in destruct b eqn:Hb
  end.

Ltac minv := repeat minv_step.

(** ** What each function leaves untouched *)

Create HintDb frame discriminated.

Ltac frame_prim :=
  let w := fresh "w" in
  let r := fresh "r" in
  let w' := fresh "w'" in
  let E := fresh "E" in
  intros w r w' E;
  unfold model_train, model_eval, call_model, optimizer_zero_grad,
    loss_backward, optimizer_step, iterate, fs_append, torch_save,
    torch_load, turn_on_dropout, modify, ret, raise, lift in E;
  repeat case_match; simplify_eq; unfold same; simpl; try done.

Ltac frame_step :=
  first
    [ solve [eauto with frame]
    | apply preserves_bind; [apply _ | | intros ?]
    | apply preserves_for_each; [apply _ | intros ? ?]
    | apply preserves_ret; apply _
    | apply preserves_lift; apply _
    | apply preserves_raise; apply _
    | match goal with
      | |- preserves _ (match ?x with _ => _ end) => destruct x
      end
    | solve [frame_prim] ].

Ltac frame := repeat frame_step.

Section Frames.
Context `{Torch} `{Os}.

Lemma fs_append_other path text p :
  p <> path -> preserves (same (fun w => w_fs w !! p)) (fs_append path text).
Proof.
  intros Hp w r w' [= <- <-]. unfold same, append_file. simpl.
  by rewrite lookup_insert_ne.
Qed.

Lemma torch_save_other path p :
  p <> path -> preserves (same (fun w => w_fs w !! p)) (torch_save path).
Proof.
  intros Hp w r w' [= <- <-]. unfold same. simpl. by rewrite lookup_insert_ne.
Qed.

Lemma write_to_file_other folder file text p :
  p <> folder +:+ sep +:+ file ->
  preserves (same (fun w => w_fs w !! p)) (write_to_file folder file text).
Proof.
  intros Hp. unfold write_to_file.
  apply preserves_bind; [apply _|by apply fs_append_other|intros _].
  destruct (negb _); [by apply fs_append_other|apply preserves_ret, _].
Qed.

Lemma write_to_file_params folder file text :
  preserves (same w_params) (write_to_file folder file text).
Proof. unfold write_to_file. frame. Qed.

Lemma write_to_file_opt folder file text :
  preserves (same w_opt) (write_to_file folder file text).
Proof. unfold write_to_file. frame. Qed.

Lemma training_step_fs dl : preserves (same w_fs) (training_step dl).
Proof. unfold training_step, training_body. frame. Qed.

Lemma validation_step_fs dl : preserves (same w_fs) (validation_step dl).
Proof. unfold validation_step, validation_body. frame. Qed.

Lemma validation_step_params dl : preserves (same w_params) (validation_step dl).
Proof. unfold validation_step, validation_body. frame. Qed.

Lemma validation_step_opt dl : preserves (same w_opt) (validation_step dl).
Proof. unfold validation_step, validation_body. frame. Qed.

Lemma mcd_samples_fs b T : preserves (same w_fs) (mcd_samples b T).
Proof. unfold mcd_samples. frame. Qed.

Lemma evaluate_body_fs dropout T b st :
  preserves (same w_fs) (evaluate_body dropout T b st).
Proof. unfold evaluate_body. pose proof mcd_samples_fs. frame. Qed.

Lemma evaluate_loop_fs dl dropout T :
  preserves (same w_fs) (evaluate_loop dl dropout T).
Proof. unfold evaluate_loop. pose proof evaluate_body_fs. frame. Qed.

End Frames.

(** ** Paths *)

Section Paths.
Context `{Os}.

Lemma append_String c s t : String c s +:+ t = String c (s +:+ t).
Proof. reflexivity. Qed.

Lemma append_assoc (s t u : string) : (s +:+ t) +:+ u = s +:+ t +:+ u.
Proof. induction s as [|c s IH]; [done|]. rewrite !append_String. by f_equal. Qed.

Lemma length_append' (s t : string) :
  String.length (s +:+ t) = (String.length s + String.length t)%nat.
Proof. induction s as [|c s IH]; [done|]. rewrite append_String. simpl. lia. Qed.

Lemma append_inv_tail (s1 s2 t : string) : s1 +:+ t = s2 +:+ t -> s1 = s2.
Proof.
  revert s2. induction s1 as [|c s1 IH]; intros [|d s2] Heq.
  - done.
  - apply (f_equal String.length) in Heq.
    rewrite !length_append' in Heq. simpl in Heq. lia.
  - apply (f_equal String.length) in Heq.
    rewrite !length_append' in Heq. simpl in Heq. lia.
  - rewrite !append_String in Heq. injection Heq as -> Heq. f_equal. by apply IH.
Qed.

Lemma checkpoint_path_inj i j : checkpoint_path i = checkpoint_path j -> i = j.
Proof.
  unfold checkpoint_path. intros Heq.
  do 5 apply (inj (String.app _)) in Heq.
  apply append_inv_tail in Heq. by apply (inj pretty) in Heq.
Qed.

Lemma log_file_not_checkpoint pretrained dropout file i :
  log_folder pretrained dropout +:+ sep +:+ file <> checkpoint_path i.
Proof.
  unfold log_folder, checkpoint_path. intros Heq.
  destruct (dropout =? 0)%float; rewrite !append_assoc in Heq;
    do 2 apply (inj (String.app _)) in Heq; discriminate.
Qed.

Lemma log_files_distinct folder f1 f2 :
  f1 <> f2 -> folder +:+ sep +:+ f1 <> folder +:+ sep +:+ f2.
Proof. intros Hne Heq. do 2 apply (inj (String.app _)) in Heq. done. Qed.

End Paths.

(** ** [write_to_file] *)

Section WriteToFile.
Context `{Torch} `{Os}.

Lemma append_nil_r (s : string) : s +:+ "" = s.
Proof. induction s as [|c s IH]; [done|]. rewrite append_String. by f_equal. Qed.

(** C9, as the code has it: one call of [write_to_file] leaves every other
    file alone and extends the content of its file (the empty content when
    the file is new) by the text, followed by one blank exactly when the
    text holds no newline character at all; nothing already in the file is
    overwritten. *)
Theorem write_to_file_appends folder file text (w : world) :
  let path := folder +:+ sep +:+ file in
  write_to_file folder file text w =
    (Ok tt,
     set_fs (<[path := default "" (w_fs w !! path) +:+ text +:+
                       (if contains_newline text then "" else " ")]> (w_fs w)) w).
Proof.
  intros path. unfold write_to_file. fold path.
  unfold bind, fs_append, modify, append_file, set_fs. simpl.
  destruct (contains_newline text); simpl.
  - by rewrite append_nil_r.
  - unfold ret. simpl. rewrite lookup_insert_eq. simpl.
    by rewrite insert_insert_eq, append_assoc.
Qed.

End WriteToFile.

(** ** [turn_on_dropout] and the modes of the forward passes *)

Section Dropout.
Context `{Torch} `{Os}.

Global Instance mcd_safe_preorder : PreOrder mcd_safe.
Proof.
  split.
  - intros w Hw. split; [done|]. exists []. split; [done|constructor].
  - intros w1 w2 w3 H12 H23 Hw1.
    destruct (H12 Hw1) as (Hw2 & c12 & Hc12 & Hall12).
    destruct (H23 Hw2) as (Hw3 & c23 & Hc23 & Hall23).
    split; [done|]. exists (c23 ++ c12). split.
    + unfold new_calls in *. rewrite Hc23, Hc12. by rewrite app_assoc.
    + by apply Forall_app.
Qed.

Lemma turn_on_dropout_modules_lookup ms i m :
  ms !! i = Some m ->
  turn_on_dropout_modules ms !! i
  = Some (if is_dropout m then Module (cls_name m) true else m).
Proof.
  intros Hm. unfold turn_on_dropout_modules.
  by rewrite list_lookup_fmap, Hm.
Qed.

Lemma turn_on_dropout_modules_safe ms :
  only_dropout_trains ms -> only_dropout_trains (turn_on_dropout_modules ms).
Proof.
  unfold only_dropout_trains, turn_on_dropout_modules. intros Hms.
  apply Forall_fmap. eapply Forall_impl; [exact Hms|].
  intros m Hm. simpl. destruct (is_dropout m) eqn:E; simpl; auto.
Qed.

Lemma eval_modules_safe ms : only_dropout_trains (map (set_training false) ms).
Proof.
  unfold only_dropout_trains. apply Forall_fmap, Forall_true. intros m. simpl.
  discriminate.
Qed.

Lemma call_model_mcd_safe b : preserves mcd_safe (call_model b).
Proof.
  intros w r w' E Hw. unfold call_model in E.
  destruct (model_call _ _ _ _ _) as [out g]. simplify_eq. simpl.
  split; [done|]. exists [w_modules w]. split; [done|]. by constructor.
Qed.

Lemma turn_on_dropout_mcd_safe : preserves mcd_safe turn_on_dropout.
Proof.
  intros w r w' [= <- <-] Hw. simpl. split.
  - by apply turn_on_dropout_modules_safe.
  - exists []. split; [done|constructor].
Qed.

Lemma model_eval_mcd_safe : preserves mcd_safe model_eval.
Proof.
  intros w r w' [= <- <-] Hw. simpl. split.
  - apply eval_modules_safe.
  - exists []. split; [done|constructor].
Qed.

#[local] Hint Resolve call_model_mcd_safe turn_on_dropout_mcd_safe
  model_eval_mcd_safe : frame.

Lemma mcd_samples_mcd_safe b T : preserves mcd_safe (mcd_samples b T).
Proof. unfold mcd_samples. frame. Qed.

#[local] Hint Resolve mcd_samples_mcd_safe : frame.

(** One iteration of the loop of [evaluate] starts with [model.eval()]. *)
Lemma evaluate_body_calls dropout T b st w r w' :
  evaluate_body dropout T b st w = (r, w') ->
  exists calls, new_calls w w' calls /\ Forall only_dropout_trains calls.
Proof.
  unfold evaluate_body. intros E.
  apply bind_cases in E as [(e & [=] & _)|([] & w1 & [= <-] & E)].
  match type of E with
  | ?f _ = _ => assert (Hsafe : preserves mcd_safe f) by (cbv beta; frame)
  end.
  apply Hsafe in E. destruct E as (_ & calls & Hcalls & Hall).
  - apply eval_modules_safe.
  - by exists calls.
Qed.

(** C6: [turn_on_dropout] returns normally, touches nothing but the
    [training] flags, sets the flag of every module whose class name starts
    with [Dropout] and leaves the flag of every other module as it was; and
    every forward pass of one iteration of the loop of [evaluate], the MCD
    samples included, runs with no module in training mode except dropout
    modules. *)
Theorem turn_on_dropout_only_dropout (w : world) :
  (exists w', turn_on_dropout w = (Ok tt, w') /\
     w_params w' = w_params w /\ w_grad w' = w_grad w /\ w_opt w' = w_opt w /\
     w_rng w' = w_rng w /\ w_fs w' = w_fs w /\ w_calls w' = w_calls w /\
     length (w_modules w') = length (w_modules w) /\
     forall i m, w_modules w !! i = Some m ->
       exists m', w_modules w' !! i = Some m' /\
         cls_name m' = cls_name m /\
         training m' = (if String.prefix "Dropout" (cls_name m) then true
                        else training m)) /\
  (forall dropout T b st r w',
     evaluate_body dropout T b st w = (r, w') ->
     exists calls, new_calls w w' calls /\
       Forall (Forall (fun m => training m = true ->
                 String.prefix "Dropout" (cls_name m) = true)) calls).
Proof.
  split.
  - eexists. split; [reflexivity|]. simpl. repeat split.
    + unfold turn_on_dropout_modules. by rewrite length_map.
    + intros i m Hm. rewrite (turn_on_dropout_modules_lookup _ _ _ Hm).
      eexists. split; [reflexivity|]. unfold is_dropout.
      destruct (String.prefix "Dropout" (cls_name m)); done.
  - intros dropout T b st r w'. apply evaluate_body_calls.
Qed.

End Dropout.

(** ** The vote of the MC dropout samples *)

Section Vote.
Context `{Torch} `{Os}.

Lemma rmap_Forall2 {A B} (f : A -> result B) l bs :
  rmap f l = Ok bs -> Forall2 (fun a b => f a = Ok b) l bs.
Proof.
  revert bs. induction l as [|a l IH]; intros bs; simpl.
  - intros [= <-]. constructor.
  - destruct (f a) as [b|] eqn:Ea; simpl; [|discriminate].
    destruct (rmap f l) as [bs'|]; simpl; [|discriminate].
    intros [= <-]. constructor; auto.
Qed.

Lemma column_spec a b col :
  stats.column a b = Ok col -> Forall2 (fun row c => row !! b = Some c) a col.
Proof.
  intros Hcol. apply rmap_Forall2 in Hcol.
  eapply Forall2_impl; [exact Hcol|]. intros row c. simpl.
  destruct (row !! b); [|discriminate]. by intros [= ->].
Qed.

Lemma mode_spec a votes :
  stats.mode a = Ok votes ->
  forall b v, votes !! b = Some v ->
    exists col, Forall2 (fun row c => row !! b = Some c) a col /\ is_mode col v.
Proof.
  unfold stats.mode. destruct a as [|r0 a']; [discriminate|].
  intros Hm b v Hv. apply rmap_Forall2 in Hm.
  destruct (Forall2_lookup_r _ _ _ _ _ Hm Hv) as (b' & Hb' & Hcol).
  apply lookup_seq in Hb' as [-> _]. simpl in Hcol.
  destruct (stats.column (r0 :: a') b) as [col|] eqn:Ecol; [|discriminate].
  simpl in Hcol. exists col. split; [by apply column_spec|by apply mode1_spec].
Qed.

Lemma mcd_vote_spec samples votes :
  mcd_vote samples = Ok votes ->
  exists classes,
    Forall2 (fun logits cs => np.argmax_rows logits = Ok cs) samples classes /\
    forall b v, votes !! b = Some v ->
      exists col, Forall2 (fun cs c => cs !! b = Some c) classes col /\
                  is_mode col v.
Proof.
  unfold mcd_vote. destruct samples as [|s0 rest]; [discriminate|].
  destruct (_ && _); [|discriminate].
  destruct (rmap np.argmax_rows (s0 :: rest)) as [classes|] eqn:Ecl; [|discriminate].
  simpl. intros Hm. exists classes. split; [by apply rmap_Forall2|].
  by apply mode_spec.
Qed.

Lemma evaluate_body_mcd dropout T b st w st' w' :
  (0 <? dropout)%float = true ->
  evaluate_body dropout T b st w = (Ok st', w') ->
  exists samples votes w1 w2,
    mcd_samples b T w1 = (Ok samples, w2) /\
    mcd_vote samples = Ok votes /\
    update_confusion_matrix (confusion_matrix_mcd st) votes (b_labels b)
    = Ok (confusion_matrix_mcd st').
Proof.
  intros Hd E. unfold evaluate_body in E. rewrite Hd in E.
  minv. simpl. eauto 10.
Qed.

End Vote.

(** ** The means of [training_step] and [validation_step] *)

Section Means.
Context `{Torch} `{Os}.

Lemma running_sum_snoc xs x : running_sum (xs ++ [x]) = (running_sum xs + x)%float.
Proof. unfold running_sum. by rewrite fold_left_app. Qed.

Lemma training_body_batch b el aa w :
  training_body b (el, aa) w
  = bind (training_batch b)
      (fun m => ret ((el + m.2)%float, (aa + m.1)%float)) w.
Proof.
  unfold training_body, training_batch, bind.
  repeat (case_match; simplify_eq; try done).
Qed.

Lemma validation_body_batch b aa el w :
  validation_body b (aa, el) w
  = bind (validation_batch b)
      (fun m => ret ((aa + m.1)%float, (el + m.2)%float)) w.
Proof.
  unfold validation_body, validation_batch, bind.
  repeat (case_match; simplify_eq; try done).
Qed.

Lemma for_each_cons {A S} (a : A) l (body : A -> S -> M S) s :
  for_each (a :: l) body s = bind (body a s) (for_each l body).
Proof. reflexivity. Qed.

Lemma training_loop_sums bs : forall ms w,
  for_each bs training_body
    (running_sum (map snd ms), running_sum (map fst ms)) w
  = bind (per_batch training_batch bs ms)
      (fun ms' => ret (running_sum (map snd ms'), running_sum (map fst ms'))) w.
Proof.
  induction bs as [|b bs IH]; intros ms w.
  - done.
  - unfold per_batch in *. rewrite !for_each_cons. unfold bind in *.
    rewrite training_body_batch. unfold bind, ret.
    destruct (training_batch b w) as [[m|e] w1]; [|done].
    specialize (IH (ms ++ [m]) w1).
    rewrite !map_app in IH. cbn [map] in IH.
    rewrite !running_sum_snoc in IH. exact IH.
Qed.

Lemma validation_loop_sums bs : forall ms w,
  for_each bs validation_body
    (running_sum (map fst ms), running_sum (map snd ms)) w
  = bind (per_batch validation_batch bs ms)
      (fun ms' => ret (running_sum (map fst ms'), running_sum (map snd ms'))) w.
Proof.
  induction bs as [|b bs IH]; intros ms w.
  - done.
  - unfold per_batch in *. rewrite !for_each_cons. unfold bind in *.
    rewrite validation_body_batch. unfold bind, ret.
    destruct (validation_batch b w) as [[m|e] w1]; [|done].
    specialize (IH (ms ++ [m]) w1).
    rewrite !map_app in IH. cbn [map] in IH.
    rewrite !running_sum_snoc in IH. exact IH.
Qed.

Lemma per_batch_length one bs : forall ms w ms' w',
  per_batch one bs ms w = (Ok ms', w') ->
  length ms' = (length ms + length bs)%nat.
Proof.
  induction bs as [|b bs IH]; intros ms w ms' w'; unfold per_batch; simpl.
  - intros [= <- <-]. lia.
  - intros E. minv. apply IH in E. rewrite length_app in E. simpl in E. lia.
Qed.

Lemma training_step_means dl w :
  (0 < dl_len dl)%nat ->
  training_step dl w
  = bind (training_metrics dl) (fun ms => ret (batch_means (dl_len dl) ms)) w.
Proof.
  intros Hn. unfold training_step, training_metrics.
  cbv beta iota delta [bind model_train model_eval modify iterate].
  match goal with
  | |- context [for_each ?bs training_body _ ?w1] =>
      pose proof (training_loop_sums bs [] w1) as L
  end.
  change (running_sum (map snd [])) with 0%float in L.
  change (running_sum (map fst [])) with 0%float in L.
  rewrite L. unfold bind, ret, lift, batch_means.
  destruct (per_batch _ _ _ _) as [[ms|e] w1]; [|done].
  destruct (dl_len dl) as [|n]; [lia|]. done.
Qed.

Lemma validation_step_means dl w :
  (0 < dl_len dl)%nat ->
  validation_step dl w
  = bind (validation_metrics dl) (fun ms => ret (batch_means (dl_len dl) ms)) w.
Proof.
  intros Hn. unfold validation_step, validation_metrics.
  cbv beta iota delta [bind model_train model_eval modify iterate].
  match goal with
  | |- context [for_each ?bs validation_body _ ?w1] =>
      pose proof (validation_loop_sums bs [] w1) as L
  end.
  change (running_sum (map fst [])) with 0%float in L.
  change (running_sum (map snd [])) with 0%float in L.
  rewrite L. unfold bind, ret, lift, batch_means.
  destruct (per_batch _ _ _ _) as [[ms|e] w1]; [|done].
  destruct (dl_len dl) as [|n]; [lia|]. done.
Qed.

Lemma metrics_length (one : batch -> M (float * float)) dl (w : world) ms w' :
  bind (iterate dl) (fun batches => per_batch one batches []) w = (Ok ms, w') ->
  length ms = dl_len dl.
Proof.
  intros E. minv. unfold iterate in E0. simplify_eq.
  apply per_batch_length in E. rewrite length_map, length_seq in E. done.
Qed.

End Means.

(** ** [evaluate] without dropout *)

Section Evaluate.
Context `{Torch} `{Os}.

Lemma all_eval_set ms : all_eval (map (set_training false) ms).
Proof. apply Forall_fmap, Forall_true. done. Qed.

Lemma suffix_eq (s1 s2 t1 t2 : string) :
  s1 +:+ t1 = s2 +:+ t2 -> String.length t1 = String.length t2 -> t1 = t2.
Proof.
  revert s2. induction s1 as [|c s1 IH]; intros [|d s2] Heq Hlen.
  - done.
  - apply (f_equal String.length) in Heq. rewrite !length_append' in Heq.
    simpl in Heq. lia.
  - apply (f_equal String.length) in Heq. rewrite !length_append' in Heq.
    simpl in Heq. lia.
  - rewrite !append_String in Heq. injection Heq as _ Heq. eauto.
Qed.

Lemma mcd_file_not_plain stem folder :
  stem +:+ "_mcd.txt" <> folder +:+ sep +:+ "test_accuracy.txt" /\
  stem +:+ "_mcd.txt" <> folder +:+ sep +:+ "confusion_matrix.txt".
Proof.
  split; intros Heq.
  - change "test_accuracy.txt" with ("test_accu" +:+ "racy.txt") in Heq.
    rewrite <- !append_assoc in Heq. by apply suffix_eq in Heq.
  - change "confusion_matrix.txt" with ("confusion_ma" +:+ "trix.txt") in Heq.
    rewrite <- !append_assoc in Heq. by apply suffix_eq in Heq.
Qed.

(** Without dropout, one iteration makes one forward pass, in evaluation
    mode, and leaves the MCD locals alone. *)
Lemma evaluate_body_plain dropout T b st w r w' :
  (0 <? dropout)%float = false ->
  evaluate_body dropout T b st w = (r, w') ->
  w_calls w' = map (set_training false) (w_modules w) :: w_calls w /\
  forall st', r = Ok st' ->
    confusion_matrix_mcd st' = confusion_matrix_mcd st /\
    average_acc_mcd st' = average_acc_mcd st.
Proof.
  intros Hd E. unfold evaluate_body in E. rewrite Hd in E.
  apply bind_cases in E as [(e & [=] & _)|([] & w1 & [= <-] & E)].
  apply bind_cases in E as [(e & E1 & _)|(out & w2 & E1 & E)].
  { unfold call_model in E1. by destruct (model_call _ _ _ _ _). }
  unfold call_model in E1. simpl in E1.
  destruct (model_call _ _ _ _ _) as [out' g]. injection E1 as -> <-.
  destruct out as [[loss logits] gr].
  unfold bind, lift, ret in E.
  repeat (case_match; simplify_eq); simpl; split; try done; by intros ? [= <-].
Qed.

Lemma evaluate_for_each_plain dropout T bs : forall st w r w',
  (0 <? dropout)%float = false ->
  for_each bs (evaluate_body dropout T) st w = (r, w') ->
  (exists calls, new_calls w w' calls /\ (length calls <= length bs)%nat /\
     Forall all_eval calls /\
     forall st', r = Ok st' -> length calls = length bs) /\
  forall st', r = Ok st' ->
    confusion_matrix_mcd st' = confusion_matrix_mcd st /\
    average_acc_mcd st' = average_acc_mcd st.
Proof.
  induction bs as [|b bs IH]; intros st w r w' Hd E.
  - injection E as <- <-. split; [|by intros ? [= <-]].
    exists []. split; [done|]. split; [done|]. split; [constructor|done].
  - rewrite for_each_cons in E.
    apply bind_cases in E as [(e & E1 & ->)|(st1 & w1 & E1 & E)].
    + apply evaluate_body_plain in E1 as [Hc _]; [|done]. split; [|done].
      exists [map (set_training false) (w_modules w)].
      split; [done|]. split; [simpl; lia|]. split; [|done].
      constructor; [apply all_eval_set|constructor].
    + apply evaluate_body_plain in E1 as [Hc Hst]; [|done].
      destruct (Hst st1 eq_refl) as [Hcm Hacc].
      apply IH in E as [(calls & Hcalls & Hlen & Hall & Hok) Hst']; [|done].
      split.
      * exists (calls ++ [map (set_training false) (w_modules w)]).
        split; [|split; [|split]].
        -- unfold new_calls in *. rewrite Hcalls, Hc. by rewrite <- app_assoc.
        -- rewrite length_app. simpl. lia.
        -- apply Forall_app. split; [done|].
           constructor; [apply all_eval_set|constructor].
        -- intros st' Hr. rewrite length_app, (Hok st' Hr). simpl. lia.
      * intros st' Hr. destruct (Hst' st' Hr) as [-> ->]. done.
Qed.

Lemma iterate_calls dl : preserves (same w_calls) (iterate dl).
Proof. frame. Qed.

Lemma write_to_file_calls folder file text :
  preserves (same w_calls) (write_to_file folder file text).
Proof. unfold write_to_file. frame. Qed.

End Evaluate.

(** ** [train]: the epochs and the restore *)

Section Train.
Context `{Torch} `{Os}.

Lemma checkpoint_not_a_log pretrained dropout i :
  not_a_log pretrained dropout (checkpoint_path i).
Proof. intros file Heq. by eapply log_file_not_checkpoint. Qed.

Lemma torch_save_run path (w : world) :
  torch_save path w
  = (Ok tt, set_fs (<[path := pickle (w_params w)]> (w_fs w)) w).
Proof. reflexivity. Qed.

Lemma epoch_body_Ok tdl vdl pretrained dropout i losses (w : world) losses' w' :
  epoch_body tdl vdl pretrained dropout i losses w = (Ok losses', w') ->
  exists tr w_t va w_v,
    training_step tdl (torch_save (checkpoint_path i) w).2 = (Ok tr, w_t) /\
    validation_step vdl w_t = (Ok va, w_v) /\
    losses' = losses ++ [va.2] /\
    w_params w' = w_params w_t /\
    w_opt w' = w_opt w_t /\
    w_fs w' !! checkpoint_path i = Some (pickle (w_params w)) /\
    (forall p, p <> checkpoint_path i -> not_a_log pretrained dropout p ->
       w_fs w' !! p = w_fs w !! p).
Proof.
  intros E. unfold epoch_body in E.
  apply bind_Ok in E as ([] & w0 & Esave & E).
  apply bind_Ok in E as ([train_acc train_loss] & w_t & Etrain & E).
  apply bind_Ok in E as ([val_acc val_loss] & w_v & Eval & E).
  apply bind_Ok in E as ([] & w1 & E1 & E).
  apply bind_Ok in E as ([] & w2 & E2 & E).
  apply bind_Ok in E as ([] & w3 & E3 & E).
  apply bind_Ok in E as ([] & w4 & E4 & E).
  injection E as <- <-.
  rewrite torch_save_run in Esave. injection Esave as <-.
  exists (train_acc, train_loss), w_t, (val_acc, val_loss), w_v.
  rewrite torch_save_run. simpl.
  split; [done|]. split; [done|]. split; [done|].
  assert (Hfs : forall p, not_a_log pretrained dropout p ->
            w_fs w4 !! p = w_fs w_t !! p).
  { intros p Hp.
    apply (write_to_file_other _ _ _ p) in E1, E2, E3, E4; try apply Hp.
    apply validation_step_fs in Eval. unfold same in *.
    by rewrite E4, E3, E2, E1, Eval. }
  apply training_step_fs in Etrain. unfold same in Etrain. simpl in Etrain.
  split; [|split; [|split]].
  - apply write_to_file_params in E1, E2, E3, E4.
    apply validation_step_params in Eval. unfold same in *. congruence.
  - apply write_to_file_opt in E1, E2, E3, E4.
    apply validation_step_opt in Eval. unfold same in *. congruence.
  - rewrite Hfs by apply checkpoint_not_a_log.
    rewrite Etrain. by rewrite lookup_insert_eq.
  - intros p Hp Hlog. rewrite Hfs by done. rewrite Etrain.
    by rewrite lookup_insert_ne.
Qed.

Lemma epoch_loop_snoc tdl vdl pretrained dropout start n losses (w : world) :
  epoch_loop tdl vdl pretrained dropout (seq start (S n)) losses w
  = bind (epoch_loop tdl vdl pretrained dropout (seq start n) losses)
      (epoch_body tdl vdl pretrained dropout (start + n)%nat) w.
Proof.
  unfold epoch_loop. rewrite seq_S, for_each_app. unfold bind.
  destruct (for_each (seq start n) _ losses w) as [[l1|e] w1]; [|done].
  simpl. unfold bind. by destruct (epoch_body _ _ _ _ _ _ _) as [[?|?] ?].
Qed.

Lemma epoch_loop_spec tdl vdl pretrained dropout start n :
  forall losses (w : world) losses' w',
  epoch_loop tdl vdl pretrained dropout (seq start n) losses w = (Ok losses', w') ->
  length losses' = (length losses + n)%nat /\
  (forall k, (k < n)%nat ->
     exists losses_k w_k tr w_t va w_v,
       epoch_loop tdl vdl pretrained dropout (seq start k) losses w
       = (Ok losses_k, w_k) /\
       w_fs w' !! checkpoint_path (start + k) = Some (pickle (w_params w_k)) /\
       training_step tdl (torch_save (checkpoint_path (start + k)) w_k).2
       = (Ok tr, w_t) /\
       validation_step vdl w_t = (Ok va, w_v) /\
       losses' !! (length losses + k)%nat = Some va.2) /\
  (forall p, (forall k, (k < n)%nat -> p <> checkpoint_path (start + k)) ->
     not_a_log pretrained dropout p -> w_fs w' !! p = w_fs w !! p).
Proof.
  induction n as [|n IH]; intros losses w losses' w' E.
  - injection E as <- <-. split; [lia|]. split; [intros k; lia|done].
  - rewrite epoch_loop_snoc in E.
    apply bind_Ok in E as (l1 & w1 & Eloop & Ebody).
    destruct (IH _ _ _ _ Eloop) as (Hlen & Hk & Hfs).
    apply epoch_body_Ok in Ebody
      as (tr & w_t & va & w_v & Etr & Eva & -> & _ & _ & Hck & Hother).
    split; [rewrite length_app; simpl; lia|]. split.
    + intros k Hlt. destruct (decide (k = n)) as [->|Hne].
      * exists l1, w1, tr, w_t, va, w_v. repeat split; try done.
        rewrite <- Hlen. by rewrite list_lookup_middle.
      * destruct (Hk k) as (lk & wk & tr' & wt' & va' & wv' & ? & Hc & ? & ? & Hl);
          [lia|].
        exists lk, wk, tr', wt', va', wv'. repeat split; try done.
        -- rewrite Hother; [done| |apply checkpoint_not_a_log].
           intros Heq%checkpoint_path_inj. lia.
        -- rewrite lookup_app_l; [done|]. lia.
    + intros p Hp Hlog. rewrite Hother; [|apply Hp; lia|done].
      apply Hfs; [|done]. intros k Hlt. apply Hp. lia.
Qed.

Lemma restore_best_Ok pretrained dropout losses (w : world) w' :
  restore_best pretrained dropout losses w = (Ok tt, w') ->
  exists j bytes,
    np.argmin losses = Ok j /\
    w_fs w !! checkpoint_path j = Some bytes /\
    unpickle bytes = Some (w_params w') /\
    o_state (w_opt w') = o_state (w_opt w) /\
    o_params (w_opt w') = Some (AdamW (w_params w')) /\
    (forall p, not_a_log pretrained dropout p -> w_fs w' !! p = w_fs w !! p).
Proof.
  intros E. unfold restore_best in E.
  apply bind_Ok in E as (j & w0 & Emin & E).
  apply bind_Ok in E as ([] & w1 & Eload & E).
  apply bind_Ok in E as ([] & w2 & Eopt & E).
  apply bind_Ok in E as ([] & w3 & E1 & E).
  apply bind_Ok in E as ([] & w4 & E2 & E).
  apply bind_Ok in E as ([] & w5 & E3 & E).
  unfold lift in Emin. injection Emin as Emin <-.
  unfold torch_load in Eload.
  destruct (w_fs w !! checkpoint_path j) as [bytes|] eqn:Efile; [|discriminate].
  destruct (unpickle bytes) as [p|] eqn:Ep; [|discriminate].
  injection Eload as <-. injection Eopt as <-.
  exists j, bytes.
  pose proof E as E4.
  apply write_to_file_params in E1 as P1, E2 as P2, E3 as P3, E4 as P4.
  apply write_to_file_opt in E1 as O1, E2 as O2, E3 as O3, E4 as O4.
  unfold same in *. simpl in *.
  assert (Hp : w_params w' = p) by congruence.
  assert (Ho : w_opt w' = Optimizer (o_state (w_opt w)) (Some (AdamW p)))
    by congruence.
  rewrite Hp, Ho. simpl. repeat split; try done.
  intros q Hq.
  apply (write_to_file_other _ _ _ q) in E1, E2, E3, E; try apply Hq.
  unfold same in *. simpl in *. congruence.
Qed.

Lemma train_Ok tdl vdl epochs pretrained dropout (w : world) w' :
  train tdl vdl epochs pretrained dropout w = (Ok tt, w') ->
  exists val_losses w_end,
    epoch_loop tdl vdl pretrained dropout (seq 0 (Z.to_nat epochs)) [] w
    = (Ok val_losses, w_end) /\
    restore_best pretrained dropout val_losses w_end = (Ok tt, w').
Proof. intros E. unfold train in E. by apply bind_Ok in E. Qed.

End Train.

Lemma mcd_samples_length `{Torch} b t : forall (w : world) samples w',
  mcd_samples b (Some t) w = (Ok samples, w') -> length samples = Z.to_nat t.
Proof.
  unfold mcd_samples. intros w samples w' E.
  assert (Hgen : forall (idx : list nat) acc w samples w',
    for_each idx (fun (_ : nat) (samples : list (list (list float))) =>
        bind (call_model b) (fun predictions =>
          let '(_, logits, _) := predictions in ret (samples ++ [logits])))
      acc w = (Ok samples, w') ->
    length samples = (length acc + length idx)%nat).
  { clear. induction idx as [|i idx IH]; intros acc w samples w'; simpl.
    - intros [= <- <-]. lia.
    - intros E. minv. apply IH in E. rewrite length_app in E. simpl in E. lia. }
  apply Hgen in E. rewrite length_seq in E. simpl in E. done.
Qed.

(** C4: when an iteration of the loop of [evaluate] takes the MCD path and
    completes, [T] is a number, the passes yield [T] samples, and the MCD
    prediction of each sample of the batch is the statistical mode of the
    classes the [T] passes gave it, the lowest class on ties; these
    predictions are what is added to the MCD confusion matrix.  For the
    sampled classes 0,0,1,1,1 the vote is 1; for the tie 0,0,1,1 it is 0. *)
Theorem mcd_vote_is_mode :
  (forall `{Torch} `{Os} dropout T b st (w : world) st' w',
     (0 <? dropout)%float = true ->
     evaluate_body dropout T b st w = (Ok st', w') ->
     exists t samples votes classes w1 w2,
       T = Some t /\
       mcd_samples b T w1 = (Ok samples, w2) /\
       length samples = Z.to_nat t /\
       Forall2 (fun logits cs => np.argmax_rows logits = Ok cs) samples classes /\
       mcd_vote samples = Ok votes /\
       (forall i v, votes !! i = Some v ->
          exists col, Forall2 (fun cs c => cs !! i = Some c) classes col /\
                      length col = Z.to_nat t /\ is_mode col v) /\
       update_confusion_matrix (confusion_matrix_mcd st) votes (b_labels b)
       = Ok (confusion_matrix_mcd st')) /\
  stats.mode1 [0; 0; 1; 1; 1] = Ok 1 /\
  stats.mode1 [0; 0; 1; 1] = Ok 0 /\
  mcd_vote (map (fun c => [Toy.one_hot c]) [0; 0; 1; 1; 1]) = Ok [1] /\
  mcd_vote (map (fun c => [Toy.one_hot c]) [0; 0; 1; 1]) = Ok [0].
Proof.
  split; [|by vm_compute].
  intros HT HO dropout T b st w st' w' Hd E.
  destruct (evaluate_body_mcd _ _ _ _ _ _ _ Hd E)
    as (samples & votes & w1 & w2 & Hs & Hv & Hcm).
  destruct T as [t|]; [|discriminate].
  pose proof (mcd_samples_length _ _ _ _ _ Hs) as Hlen.
  destruct (mcd_vote_spec _ _ Hv) as (classes & Hcl & Hmode).
  exists t, samples, votes, classes, w1, w2. repeat split; try done.
  intros i v Hi. destruct (Hmode i v Hi) as (col & Hcol & Hm).
  exists col. split; [done|]. split; [|done].
  apply Forall2_length in Hcl, Hcol. lia.
Qed.

(** C8: on a dataloader of N > 0 batches, [training_step] and
    [validation_step] return the pair (sum of the accuracies of the batches
    divided by N, sum of their losses divided by N), the sums being the
    running sums of the loop, and raise what the first failing batch raises;
    no batch is weighted by its size.  Three batches of sizes 2, 2 and 4 with
    accuracies 1, 0.5 and 0 give the mean accuracy 0.5, where the mean over
    the eight samples would be 0.375. *)
Theorem step_means_are_unweighted :
  (forall `{Torch} (dl : dataloader) (w : world),
     (0 < dl_len dl)%nat ->
     training_step dl w
     = bind (training_metrics dl) (fun ms => ret (batch_means (dl_len dl) ms)) w /\
     validation_step dl w
     = bind (validation_metrics dl) (fun ms => ret (batch_means (dl_len dl) ms)) w /\
     (forall ms w', training_metrics dl w = (Ok ms, w') -> length ms = dl_len dl) /\
     (forall ms w', validation_metrics dl w = (Ok ms, w') -> length ms = dl_len dl)) /\
  (training_metrics Toy.training_batches Toy.w0).1
  = Ok [(1, 1); (0.5, 1); (0, 0.5)]%float /\
  (map (fun i => length (b_labels (dl_batch Toy.training_batches O i))) [0; 1; 2]%nat
   = [2; 2; 4]%nat) /\
  (exists loss, (training_step Toy.training_batches Toy.w0).1 = Ok (0.5%float, loss)) /\
  (validation_metrics Toy.three_batches Toy.w0).1
  = Ok [(1, 1); (0.5, 1); (0, 1)]%float /\
  (validation_step Toy.three_batches Toy.w0).1 = Ok (0.5, 1)%float /\
  ((1 * 2 + 0.5 * 2 + 0 * 4) / 8 = 0.375)%float.
Proof.
  split.
  - intros HT dl w Hn. split; [by apply training_step_means|].
    split; [by apply validation_step_means|]. split.
    + intros ms w' E. unfold training_metrics in E.
      apply bind_Ok in E as ([] & w1 & _ & E). by eapply metrics_length.
    + intros ms w' E. unfold validation_metrics in E.
      apply bind_Ok in E as ([] & w1 & _ & E). by eapply metrics_length.
  - split; [by vm_compute|]. split; [by vm_compute|]. split.
    + eexists. vm_compute. reflexivity.
    + by vm_compute.
Qed.

Section EvaluatePlain.
Context `{Torch} `{Os}.

Lemma evaluate_loop_plain dl dropout T w r w' :
  (0 <? dropout)%float = false ->
  evaluate_loop dl dropout T w = (r, w') ->
  exists calls, new_calls w w' calls /\ (length calls <= dl_len dl)%nat /\
    Forall all_eval calls /\
    forall st, r = Ok st -> length calls = dl_len dl.
Proof.
  intros Hd E. unfold evaluate_loop in E.
  apply bind_cases in E as [(e & [=] & _)|(bs & w1 & [= <- <-] & E)].
  apply evaluate_for_each_plain in E as [(calls & Hc & Hlen & Hall & Hok) _];
    [|done].
  rewrite length_map, length_seq in Hlen, Hok. by exists calls.
Qed.

#[local] Hint Resolve write_to_file_other fs_append_other
  write_to_file_calls : frame.

(** C5: when [dropout == 0], a call of [evaluate], whether it returns or
    raises, changes no file whose name ends in [_mcd.txt] and no file at all
    besides [test_accuracy.txt] and [confusion_matrix.txt] of the run's
    folder; it makes at most one forward pass per batch, exactly one per
    batch when it returns, each with every module in evaluation mode; and
    after any number of iterations of its loop the MCD confusion matrix is
    the zero matrix and the MCD running accuracy is 0. *)
Theorem evaluate_without_dropout dl pretrained dropout T (w : world) r w' :
  (dropout =? 0)%float = true ->
  evaluate dl pretrained dropout T w = (r, w') ->
  let folder := log_folder pretrained dropout in
  (forall stem,
     w_fs w' !! (stem +:+ "_mcd.txt") = w_fs w !! (stem +:+ "_mcd.txt")) /\
  (forall p,
     p <> folder +:+ sep +:+ "test_accuracy.txt" ->
     p <> folder +:+ sep +:+ "confusion_matrix.txt" ->
     w_fs w' !! p = w_fs w !! p) /\
  (exists calls, new_calls w w' calls /\
     (length calls <= dl_len dl)%nat /\ Forall all_eval calls /\
     forall x, r = Ok x -> length calls = dl_len dl) /\
  (forall bs st w0 w1,
     for_each bs (evaluate_body dropout T) eval_init w0 = (Ok st, w1) ->
     confusion_matrix_mcd st = np.zeros33 /\ average_acc_mcd st = 0%float).
Proof.
  intros Hz E folder. apply FloatOrder.eqb_zero_not_pos in Hz as Hd.
  assert (Hfs : forall p,
    p <> folder +:+ sep +:+ "test_accuracy.txt" ->
    p <> folder +:+ sep +:+ "confusion_matrix.txt" ->
    w_fs w' !! p = w_fs w !! p).
  { intros p Hp1 Hp2. unfold evaluate in E. fold folder in E.
    apply bind_cases in E as [(e & E1 & _)|(st & w1 & E1 & E)].
    - apply evaluate_loop_fs in E1. by rewrite E1.
    - apply evaluate_loop_fs in E1. rewrite <- E1. rewrite Hd in E.
      match type of E with
      | ?f _ = _ =>
          assert (Hp : preserves (same (fun w => w_fs w !! p)) f) by frame
      end.
      by apply Hp in E. }
  split; [|split; [exact Hfs|split]].
  - intros stem. destruct (mcd_file_not_plain stem folder). by apply Hfs.
  - unfold evaluate in E.
    apply bind_cases in E as [(e & E1 & ->)|(st & w1 & E1 & E)].
    + apply evaluate_loop_plain in E1 as (calls & ? & ? & ? & ?); [|done].
      by exists calls.
    + apply evaluate_loop_plain in E1 as (calls & Hc & Hlen & Hall & Hok); [|done].
      rewrite Hd in E.
      match type of E with
      | ?f _ = _ => assert (Hp : preserves (same w_calls) f) by frame
      end.
      apply Hp in E. exists calls. unfold new_calls in *.
      split; [by rewrite E|]. split; [done|]. split; [done|].
      intros _ _. by apply (Hok st).
  - intros bs st w0 w1 Hloop.
    apply evaluate_for_each_plain in Hloop as [_ Hst]; [|done].
    by apply (Hst st).
Qed.

End EvaluatePlain.

(** ** [evaluate] with dropout and no [T] *)

Section EvaluateNone.
Context `{Torch} `{Os}.

Lemma argmax_scan_lt l : forall mp mi i,
  (mi < i)%nat -> (np.argmax_scan mp mi i l < i + length l)%nat.
Proof.
  induction l as [|x l IH]; intros mp mi i Hmi; simpl.
  - lia.
  - destruct (PrimFloat.is_nan mp); [lia|].
    destruct (negb _).
    + specialize (IH x i (S i)). lia.
    + specialize (IH mp mi (S i)). lia.
Qed.

Lemma argmax_lt row i : np.argmax row = Ok i -> (i < length row)%nat.
Proof.
  destruct row as [|x row]; [discriminate|]. intros [= <-].
  pose proof (argmax_scan_lt row x 0%nat 1%nat). simpl. lia.
Qed.

Lemma argmax_rows_shape k logits :
  Forall (fun row => length row = S k) logits ->
  exists classes, np.argmax_rows logits = Ok classes /\
    length classes = length logits /\ in_range (S k) classes.
Proof.
  unfold np.argmax_rows. induction 1 as [|row logits Hrow Hall IH]; simpl.
  - exists []. split; [done|]. split; [done|constructor].
  - destruct IH as (classes & -> & Hlen & Hin).
    destruct row as [|x row]; [discriminate|].
    destruct (np.argmax (x :: row)) as [i|] eqn:Ei; [|discriminate].
    apply argmax_lt in Ei. simpl. eexists. split; [done|].
    split; [simpl; lia|]. constructor; [|done]. rewrite Hrow in Ei. lia.
Qed.

Lemma rect_zeros33 : rect 3 3 np.zeros33.
Proof. split; [done|]. repeat constructor. Qed.

(** With [T = None] and dropout, an iteration of the loop of [evaluate]
    raises; when the point prediction goes through, it is [range(None)]
    that raises. *)
Lemma evaluate_body_None dropout b st (w : world) :
  (0 <? dropout)%float = true ->
  exists e w', evaluate_body dropout None b st w = (Raise e, w') /\
    let logits :=
      (model_call (w_params w) (map (set_training false) (w_modules w))
         (w_rng w) (b_inputs b) (b_labels b)).1.1.2 in
    (rect 3 3 (confusion_matrix st) ->
     length logits = length (b_labels b) ->
     Forall (fun row => length row = 3%nat) logits ->
     in_range 3 (b_labels b) -> e = TypeError).
Proof.
  intros Hd. unfold evaluate_body. rewrite Hd.
  unfold bind, model_eval, modify, call_model. simpl.
  destruct (model_call _ _ _ _ _) as [[[loss logits] gr] g]. simpl.
  unfold lift.
  destruct (np.argmax_rows logits) as [classes|e1] eqn:E1.
  - destruct (update_confusion_matrix _ classes _) as [cm|e2] eqn:E2.
    + destruct (accuracy_score _ classes) as [acc|e3] eqn:E3.
      * simpl. eexists _, _. split; [reflexivity|done].
      * eexists _, _. split; [reflexivity|].
        intros _ Hlen Hshape _.
        destruct (argmax_rows_shape 2 logits Hshape) as (c' & Hc' & Hl' & _).
        rewrite E1 in Hc'. injection Hc' as <-.
        unfold accuracy_score in E3. rewrite decide_True in E3 by lia.
        discriminate.
    + eexists _, _. split; [reflexivity|].
      intros Hrect Hlen Hshape Hlabels.
      destruct (argmax_rows_shape 2 logits Hshape) as (c' & Hc' & Hl' & Hin).
      rewrite E1 in Hc'. injection Hc' as <-.
      destruct (update_confusion_matrix_spec 3 3 (confusion_matrix st)
                  classes (b_labels b)) as (cm & Hcm & _); [done|lia|done..|].
      rewrite E2 in Hcm. discriminate.
  - eexists _, _. split; [reflexivity|].
    intros _ _ Hshape _.
    destruct (argmax_rows_shape 2 logits Hshape) as (c' & Hc' & _).
    rewrite E1 in Hc'. discriminate.
Qed.

(** C10: on a non-empty dataloader, [evaluate] with dropout and [T] left at
    [None] raises, with every file as it was; when the point prediction of
    the first batch goes through (one row of three logits per label, labels
    among 0, 1, 2), the exception is the [TypeError] of [range(None)] in the
    MCD sampling loop. *)
Theorem evaluate_needs_T dl pretrained dropout (w : world) :
  (0 < dl_len dl)%nat ->
  (0 <? dropout)%float = true ->
  exists e w',
    evaluate dl pretrained dropout None w = (Raise e, w') /\
    w_fs w' = w_fs w /\
    let b := dl_batch dl (w_rng w) 0 in
    let logits :=
      (model_call (w_params w) (map (set_training false) (w_modules w))
         (dl_advance dl (w_rng w)) (b_inputs b) (b_labels b)).1.1.2 in
    (length logits = length (b_labels b) ->
     Forall (fun row => length row = 3%nat) logits ->
     in_range 3 (b_labels b) -> e = TypeError).
Proof.
  intros Hn Hd.
  destruct (dl_len dl) as [|n] eqn:En; [lia|].
  set (w1 := set_rng (dl_advance dl (w_rng w)) w).
  destruct (evaluate_body_None dropout (dl_batch dl (w_rng w) 0) eval_init w1 Hd)
    as (e & w' & Hbody & He).
  assert (Hloop : evaluate_loop dl dropout None w = (Raise e, w')).
  { unfold evaluate_loop, bind, iterate. rewrite En. simpl.
    unfold bind. fold w1. by rewrite Hbody. }
  exists e, w'. split; [|split].
  - unfold evaluate. by rewrite (bind_run_Raise _ _ _ _ _ Hloop).
  - by apply evaluate_loop_fs in Hloop.
  - intros b logits Hlen Hshape Hlabels.
    apply He; [apply rect_zeros33|done..].
Qed.

End EvaluateNone.

(** ** [train]: what is restored, and what the checkpoints hold *)

Section TrainClaims.
Context `{Torch} `{Os}.


(** C3: when [train] returns (and unpickling undoes pickling), the
    checkpoint file of each epoch [i] holds the parameters of the world that
    enters epoch [i], before that epoch's training pass; the loss recorded
    for epoch [i] is the one [validation_step] measures after that training
    pass; the parameters restored at the end are those that entered the
    epoch [j] of the minimum; and besides the checkpoints of the epochs and
    the log files no file is changed, so what the last training pass
    produced is saved nowhere. *)
Theorem checkpoints_hold_entering_state tdl vdl epochs pretrained dropout
    (w : world) w' :
  (forall p, unpickle (pickle p) = Some p) ->
  train tdl vdl epochs pretrained dropout w = (Ok tt, w') ->
  exists val_losses w_end j,
    epoch_loop tdl vdl pretrained dropout (seq 0 (Z.to_nat epochs)) [] w
    = (Ok val_losses, w_end) /\
    np.argmin val_losses = Ok j /\
    (forall i, (i < Z.to_nat epochs)%nat ->
       exists losses_i w_i tr w_t va w_v,
         epoch_loop tdl vdl pretrained dropout (seq 0 i) [] w
         = (Ok losses_i, w_i) /\
         w_fs w' !! checkpoint_path i = Some (pickle (w_params w_i)) /\
         training_step tdl (torch_save (checkpoint_path i) w_i).2
         = (Ok tr, w_t) /\
         validation_step vdl w_t = (Ok va, w_v) /\
         val_losses !! i = Some va.2 /\
         (i = j -> w_params w' = w_params w_i)) /\
    (forall p, (forall i, (i < Z.to_nat epochs)%nat -> p <> checkpoint_path i) ->
       not_a_log pretrained dropout p -> w_fs w' !! p = w_fs w !! p).
Proof.
  intros Hpickle E.
  apply train_Ok in E as (val_losses & w_end & Eloop & Erest).
  apply restore_best_Ok in Erest
    as (j & bytes & Emin & Efile & Eun & _ & _ & Hfs).
  apply epoch_loop_spec in Eloop as Hloop. destruct Hloop as (Hlen & Hk & Hother).
  exists val_losses, w_end, j. repeat split; try done.
  - intros i Hi.
    destruct (Hk i Hi) as (li & wi & tr & wt & va & wv & Hli & Hck & Htr & Hva & Hl).
    exists li, wi, tr, wt, va, wv. repeat split; try done.
    + rewrite Hfs; [done|]. apply checkpoint_not_a_log.
    + intros ->. simpl in Hck. rewrite Hck in Efile. injection Efile as <-.
      rewrite Hpickle in Eun. by injection Eun.
  - intros p Hp Hlog. rewrite Hfs by done. apply Hother; [|done].
    intros k Hlt. by apply Hp.
Qed.

(** What the last two lines before the final log writes do to the
    optimizer: its state is the one the epochs left, and only its attribute
    [params] is new. *)
Lemma train_optimizer tdl vdl epochs pretrained dropout (w : world) w' :
  train tdl vdl epochs pretrained dropout w = (Ok tt, w') ->
  exists val_losses w_end,
    epoch_loop tdl vdl pretrained dropout (seq 0 (Z.to_nat epochs)) [] w
    = (Ok val_losses, w_end) /\
    o_state (w_opt w') = o_state (w_opt w_end) /\
    o_params (w_opt w') = Some (AdamW (w_params w')).
Proof.
  intros E.
  apply train_Ok in E as (val_losses & w_end & Eloop & Erest).
  apply restore_best_Ok in Erest as (j & bytes & _ & _ & _ & Ho & Hp & _).
  by exists val_losses, w_end.
Qed.

End TrainClaims.

(** * Further properties of the code *)

(** ** No epochs, no batches *)

Section Edges.
Context `{Torch} `{Os}.

(** [train] with no epoch to run: the loop body never runs, [np.argmin]
    of the empty list raises, and nothing has been touched. *)
Theorem train_no_epochs tdl vdl epochs pretrained dropout (w : world) :
  epochs <= 0 ->
  train tdl vdl epochs pretrained dropout w = (Raise ValueError, w).
Proof.
  intros He. unfold train, epoch_loop.
  replace (Z.to_nat epochs) with 0%nat by lia. reflexivity.
Qed.

(** On a dataloader without batches the two steps and [evaluate] divide by
    the integer 0; [evaluate] has written nothing by then. *)
Theorem empty_dataloader_raises dl (w : world) :
  dl_len dl = 0%nat ->
  (training_step dl w).1 = Raise ZeroDivisionError /\
  (validation_step dl w).1 = Raise ZeroDivisionError /\
  forall pretrained dropout T,
    (evaluate dl pretrained dropout T w).1 = Raise ZeroDivisionError /\
    w_fs (evaluate dl pretrained dropout T w).2 = w_fs w /\
    w_calls (evaluate dl pretrained dropout T w).2 = w_calls w.
Proof.
  intros Hn. split; [|split].
  - unfold training_step, bind, model_train, modify, iterate. rewrite Hn. done.
  - unfold validation_step, bind, model_eval, modify, iterate. rewrite Hn. done.
  - intros pretrained dropout T.
    unfold evaluate, evaluate_loop, bind, iterate. rewrite Hn. done.
Qed.

(** [train] on a training dataloader without batches: the checkpoint of
    epoch 0 is written, then [training_step] raises; no other file is
    touched and the parameters are as they were. *)
Theorem train_empty_dataloader tdl vdl epochs pretrained dropout (w : world) :
  dl_len tdl = 0%nat -> 1 <= epochs ->
  exists w',
    train tdl vdl epochs pretrained dropout w = (Raise ZeroDivisionError, w') /\
    w_fs w' = <[checkpoint_path 0 := pickle (w_params w)]> (w_fs w) /\
    w_params w' = w_params w /\ w_opt w' = w_opt w.
Proof.
  intros Hn He. unfold train, epoch_loop.
  destruct (Z.to_nat epochs) as [|n] eqn:En; [lia|].
  change (seq 0 (S n)) with (0%nat :: seq 1 n). rewrite for_each_cons.
  unfold bind at 1 2. unfold epoch_body. unfold bind at 1.
  rewrite torch_save_run.
  unfold bind at 1. unfold training_step, bind, model_train, modify, iterate.
  rewrite Hn. simpl. eexists. split; [reflexivity|]. done.
Qed.

End Edges.

(** ** The forward passes of the two steps *)

Section Passes.
Context `{Torch} `{Os}.

(** A loop whose body makes one forward pass and leaves the modes alone
    makes at most one pass per element, all in the modes it started with. *)
Lemma for_each_one_call {A S} (body : A -> S -> M S) :
  (forall a s w r w', body a s w = (r, w') ->
     w_modules w' = w_modules w /\ w_calls w' = w_modules w :: w_calls w) ->
  forall l s w r w', for_each l body s w = (r, w') ->
    w_modules w' = w_modules w /\
    exists calls, new_calls w w' calls /\ (length calls <= length l)%nat /\
      Forall (fun c => c = w_modules w) calls /\
      forall x, r = Ok x -> length calls = length l.
Proof.
  intros Hbody. induction l as [|a l IH]; intros s w r w' E.
  - injection E as <- <-. split; [done|]. exists []. split; [done|].
    split; [done|]. split; [constructor|done].
  - rewrite for_each_cons in E.
    apply bind_cases in E as [(e & E1 & ->)|(s1 & w1 & E1 & E)].
    + apply Hbody in E1 as [Hm Hc]. split; [done|].
      exists [w_modules w]. split; [done|]. split; [simpl; lia|].
      split; [by repeat constructor|done].
    + apply Hbody in E1 as [Hm Hc].
      apply IH in E as (Hm' & calls & Hcalls & Hlen & Hall & Hok).
      split; [congruence|]. exists (calls ++ [w_modules w]).
      split; [|split; [|split]].
      * unfold new_calls in *. rewrite Hcalls, Hc. by rewrite <- app_assoc.
      * rewrite length_app. simpl. lia.
      * apply Forall_app. split; [|by repeat constructor].
        eapply Forall_impl; [exact Hall|]. intros c. simpl. congruence.
      * intros x Hx. rewrite length_app, (Hok x Hx). simpl. lia.
Qed.

Lemma training_body_one_call b s (w : world) r w' :
  training_body b s w = (r, w') ->
  w_modules w' = w_modules w /\ w_calls w' = w_modules w :: w_calls w.
Proof.
  destruct s as [el aa]. unfold training_body, bind, optimizer_zero_grad,
    call_model, loss_backward, optimizer_step, modify, lift, ret.
  simpl. intros E. repeat (case_match; simplify_eq); simpl; done.
Qed.

Lemma validation_body_one_call b s (w : world) r w' :
  validation_body b s w = (r, w') ->
  w_modules w' = w_modules w /\ w_calls w' = w_modules w :: w_calls w.
Proof.
  destruct s as [aa el]. unfold validation_body, bind, call_model, lift, ret.
  simpl. intros E. repeat (case_match; simplify_eq); simpl; done.
Qed.

Lemma validation_step_grad dl : preserves (same w_grad) (validation_step dl).
Proof. unfold validation_step, validation_body. frame. Qed.

(** [training_step] puts every module in training mode, makes one forward
    pass per batch in that mode (fewer only when a batch raises) and writes
    no file. *)
Theorem training_step_passes dl (w : world) r w' :
  training_step dl w = (r, w') ->
  w_fs w' = w_fs w /\
  w_modules w' = map (set_training true) (w_modules w) /\
  exists calls, new_calls w w' calls /\ (length calls <= dl_len dl)%nat /\
    Forall (Forall (fun m => training m = true)) calls /\
    forall x, r = Ok x -> length calls = dl_len dl.
Proof.
  intros E. split; [by apply training_step_fs in E|].
  unfold training_step in E.
  apply bind_cases in E as [(e & [=] & _)|([] & w1 & [= <-] & E)].
  apply bind_cases in E as [(e & [=] & _)|(bs & w2 & [= <- <-] & E)].
  apply bind_cases in E as [(e & E1 & ->)|(s & w3 & E1 & E)].
  - apply (for_each_one_call _ training_body_one_call) in E1
      as (Hm & calls & Hc & Hlen & Hall & _).
    rewrite length_map, length_seq in Hlen. simpl in *.
    split; [done|]. exists calls. repeat split; try done.
    eapply Forall_impl; [exact Hall|]. intros c ->.
    apply Forall_fmap, Forall_true. done.
  - apply (for_each_one_call _ training_body_one_call) in E1
      as (Hm & calls & Hc & Hlen & Hall & Hok).
    rewrite length_map, length_seq in Hlen, Hok. simpl in *.
    assert (Hrest : w_modules w' = w_modules w3 /\ w_calls w' = w_calls w3).
    { destruct s as [el aa]. unfold bind, lift, ret in E.
      repeat (case_match; simplify_eq); done. }
    destruct Hrest as [Hm' Hc'].
    split; [by rewrite Hm', Hm|]. exists calls. unfold new_calls in *.
    split; [by rewrite Hc', Hc|]. split; [done|]. split.
    + eapply Forall_impl; [exact Hall|]. intros c ->.
      apply Forall_fmap, Forall_true. done.
    + intros _ _. by apply (Hok s).
Qed.

(** [validation_step] updates nothing: parameters, optimizer, gradient
    buffers and files are as before; it leaves every module in evaluation
    mode and makes one forward pass per batch in that mode (fewer only when
    a batch raises). *)
Theorem validation_step_updates_nothing dl (w : world) r w' :
  validation_step dl w = (r, w') ->
  w_params w' = w_params w /\ w_opt w' = w_opt w /\ w_grad w' = w_grad w /\
  w_fs w' = w_fs w /\
  w_modules w' = map (set_training false) (w_modules w) /\
  exists calls, new_calls w w' calls /\ (length calls <= dl_len dl)%nat /\
    Forall all_eval calls /\
    forall x, r = Ok x -> length calls = dl_len dl.
Proof.
  intros E.
  split; [by apply validation_step_params in E|].
  split; [by apply validation_step_opt in E|].
  split; [by apply validation_step_grad in E|].
  split; [by apply validation_step_fs in E|].
  unfold validation_step in E.
  apply bind_cases in E as [(e & [=] & _)|([] & w1 & [= <-] & E)].
  apply bind_cases in E as [(e & [=] & _)|(bs & w2 & [= <- <-] & E)].
  apply bind_cases in E as [(e & E1 & ->)|(s & w3 & E1 & E)].
  - apply (for_each_one_call _ validation_body_one_call) in E1
      as (Hm & calls & Hc & Hlen & Hall & _).
    rewrite length_map, length_seq in Hlen. simpl in *.
    split; [done|]. exists calls. repeat split; try done.
    eapply Forall_impl; [exact Hall|]. intros c ->. apply all_eval_set.
  - apply (for_each_one_call _ validation_body_one_call) in E1
      as (Hm & calls & Hc & Hlen & Hall & Hok).
    rewrite length_map, length_seq in Hlen, Hok. simpl in *.
    assert (Hrest : w_modules w' = w_modules w3 /\ w_calls w' = w_calls w3).
    { destruct s as [aa el]. unfold bind, lift, ret in E.
      repeat (case_match; simplify_eq); done. }
    destruct Hrest as [Hm' Hc'].
    split; [by rewrite Hm', Hm|]. exists calls. unfold new_calls in *.
    split; [by rewrite Hc', Hc|]. split; [done|]. split.
    + eapply Forall_impl; [exact Hall|]. intros c ->. apply all_eval_set.
    + intros _ _. by apply (Hok s).
Qed.

End Passes.

(** ** More on [update_confusion_matrix] *)

Section ConfusionMore.




Lemma incr_cell_raises cm l p e : incr_cell cm l p = Raise e -> e = IndexError.
Proof.
  unfold incr_cell, np.index.
  repeat (case_match; simpl; simplify_eq; try done); by intros [= <-].
Qed.


Lemma update_loop_raises predictions labels idx : forall cm e,
  update_loop cm predictions labels idx = Raise e -> e = IndexError.
Proof.
  induction idx as [|i idx IH]; intros cm e; simpl; [done|].
  destruct (labels !! i), (predictions !! i); try by intros [= <-].
  destruct (incr_cell cm z z0) as [cm1|e1] eqn:E1; simpl.
  - apply IH.
  - intros [= <-]. by eapply incr_cell_raises.
Qed.

Lemma update_loop_missing_label predictions labels idx j : forall cm,
  j ∈ idx -> labels !! j = None ->
  update_loop cm predictions labels idx = Raise IndexError.
Proof.
  induction idx as [|i idx IH]; intros cm Hj Hnone; [by apply elem_of_nil in Hj|].
  destruct (update_loop cm predictions labels (i :: idx)) as [cm'|e] eqn:E.
  - exfalso. simpl in E.
    apply elem_of_cons in Hj as [->|Hj].
    + by rewrite Hnone in E.
    + destruct (labels !! i), (predictions !! i); try done.
      destruct (incr_cell cm z z0) as [cm1|]; simpl in E; [|done].
      by rewrite (IH cm1 Hj Hnone) in E.
  - f_equal. by eapply update_loop_raises.
Qed.


(** The loop runs over the predictions: with fewer labels than predictions
    it raises [IndexError], labels beyond the predictions are never read,
    and [IndexError] is the only exception it raises. *)
Theorem update_confusion_matrix_lengths (cm : matrix) predictions labels :
  ((length labels < length predictions)%nat ->
   update_confusion_matrix cm predictions labels = Raise IndexError) /\
  ((length predictions <= length labels)%nat ->
   update_confusion_matrix cm predictions labels
   = update_confusion_matrix cm predictions (take (length predictions) labels)) /\
  (forall e, update_confusion_matrix cm predictions labels = Raise e ->
     e = IndexError).
Proof.
  unfold update_confusion_matrix. split; [|split].
  - intros Hlt. apply (update_loop_missing_label _ _ _ (length labels)).
    + apply elem_of_seq. lia.
    + by apply lookup_ge_None.
  - intros Hle. rewrite !update_loop_pairs; try lia.
    + f_equal. rewrite !drop_0.
      rewrite !take_ge by (rewrite length_zip_with, ?length_take; lia).
      revert labels Hle. induction predictions as [|p ps IH]; intros labels Hle.
      * simpl. by destruct labels.
      * destruct labels as [|l ls]; simpl in *; [lia|]. f_equal. apply IH. lia.
    + rewrite length_take. lia.
  - intros e. apply update_loop_raises.
Qed.

End ConfusionMore.

(** ** The log of the validation losses *)

Section Logs.
Context `{Torch} `{Os}.

Lemma contains_newline_app s t :
  contains_newline (s +:+ t) = contains_newline s || contains_newline t.
Proof.
  induction s as [|c s IH]; [done|]. rewrite append_String. simpl.
  destruct (Ascii.eqb c newline_char); [done|]. exact IH.
Qed.

Lemma contains_newline_nl : contains_newline nl = true.
Proof. reflexivity. Qed.

(** What [write_to_file] leaves in its file. *)
Lemma write_to_file_at folder file text (w : world) r w' :
  write_to_file folder file text w = (r, w') ->
  r = Ok tt /\
  w_fs w' !! (folder +:+ sep +:+ file)
  = Some (default "" (w_fs w !! (folder +:+ sep +:+ file)) +:+ text +:+
          (if contains_newline text then "" else " ")).
Proof.
  unfold write_to_file, bind, fs_append, modify, append_file, ret. simpl.
  destruct (contains_newline text); simpl; intros [= <- <-]; simpl;
    (split; [done|]); rewrite !lookup_insert_eq; simpl.
  - by rewrite append_nil_r.
  - by rewrite append_assoc.
Qed.

Lemma log_line_snoc xs x : log_line (xs ++ [x]) = log_line xs +:+ float_str x +:+ " ".
Proof.
  unfold log_line. induction xs as [|y xs IH]; simpl.
  - by rewrite append_nil_r.
  - rewrite IH. by rewrite !append_assoc.
Qed.

Lemma epoch_body_val_loss tdl vdl pretrained dropout i losses (w : world)
    losses' w' :
  (forall x, contains_newline (float_str x) = false) ->
  epoch_body tdl vdl pretrained dropout i losses w = (Ok losses', w') ->
  let path := log_folder pretrained dropout +:+ sep +:+ "val_loss.txt" in
  exists x, losses' = losses ++ [x] /\
    w_fs w' !! path
    = Some (default "" (w_fs w !! path) +:+ float_str x +:+ " ").
Proof.
  intros Hstr E path. unfold epoch_body in E.
  apply bind_Ok in E as ([] & w0 & Esave & E).
  apply bind_Ok in E as ([train_acc train_loss] & w_t & Etrain & E).
  apply bind_Ok in E as ([val_acc val_loss] & w_v & Eval & E).
  apply bind_Ok in E as ([] & w1 & E1 & E).
  apply bind_Ok in E as ([] & w2 & E2 & E).
  apply bind_Ok in E as ([] & w3 & E3 & E).
  apply bind_Ok in E as ([] & w4 & E4 & E).
  injection E as <- <-. exists val_loss. split; [done|].
  apply write_to_file_at in E4 as [_ E4]. fold path in E4.
  rewrite Hstr in E4. rewrite E4.
  apply (write_to_file_other _ _ _ path) in E1, E2, E3;
    try (apply log_files_distinct; discriminate).
  apply validation_step_fs in Eval. apply training_step_fs in Etrain.
  apply (torch_save_other _ path) in Esave;
    [|apply log_file_not_checkpoint].
  unfold same in *. by rewrite E3, E2, E1, Eval, Etrain, Esave.
Qed.

Lemma epoch_loop_val_loss tdl vdl pretrained dropout start n :
  (forall x, contains_newline (float_str x) = false) ->
  forall losses (w : world) losses' w',
  epoch_loop tdl vdl pretrained dropout (seq start n) losses w = (Ok losses', w') ->
  let path := log_folder pretrained dropout +:+ sep +:+ "val_loss.txt" in
  exists new, losses' = losses ++ new /\ length new = n /\
    default "" (w_fs w' !! path)
    = default "" (w_fs w !! path) +:+ log_line new.
Proof.
  intros Hstr. induction n as [|n IH]; intros losses w losses' w' E path;
    subst path.
  - injection E as <- <-. exists []. rewrite app_nil_r. split; [done|].
    split; [done|]. unfold log_line. simpl. by rewrite append_nil_r.
  - rewrite epoch_loop_snoc in E.
    apply bind_Ok in E as (l1 & w1 & Eloop & Ebody).
    destruct (IH _ _ _ _ Eloop) as (new & -> & Hlen & Hfs).
    apply epoch_body_val_loss in Ebody as (x & -> & Hx); [|done].
    exists (new ++ [x]). rewrite app_assoc. split; [done|].
    split; [rewrite length_app; simpl; lia|].
    rewrite Hx. simpl. rewrite Hfs.
    by rewrite log_line_snoc, !append_assoc.
Qed.

(** Logs accumulate: when [train] returns (and [str] of a float holds no
    newline), [val_loss.txt] holds what it held before, then the recorded
    validation losses, each followed by a blank, then a newline. *)
Theorem train_appends_val_losses tdl vdl epochs pretrained dropout
    (w : world) w' :
  (forall x, contains_newline (float_str x) = false) ->
  train tdl vdl epochs pretrained dropout w = (Ok tt, w') ->
  let path := log_folder pretrained dropout +:+ sep +:+ "val_loss.txt" in
  exists val_losses w_end,
    epoch_loop tdl vdl pretrained dropout (seq 0 (Z.to_nat epochs)) [] w
    = (Ok val_losses, w_end) /\
    w_fs w' !! path
    = Some (default "" (w_fs w !! path) +:+ log_line val_losses +:+ nl).
Proof.
  intros Hstr E path. subst path.
  apply train_Ok in E as (val_losses & w_end & Eloop & Erest).
  exists val_losses, w_end. split; [done|].
  apply epoch_loop_val_loss in Eloop as (new & Hnew & _ & Hfs); [|done].
  simpl in Hnew. subst new.
  unfold restore_best in Erest.
  apply bind_Ok in Erest as (j & w0 & Emin & E).
  apply bind_Ok in E as ([] & w1 & Eload & E).
  apply bind_Ok in E as ([] & w2 & Eopt & E).
  apply bind_Ok in E as ([] & w3 & E1 & E).
  apply bind_Ok in E as ([] & w4 & E2 & E).
  apply bind_Ok in E as ([] & w5 & E3 & E).
  apply write_to_file_at in E as [_ E]. rewrite E.
  rewrite contains_newline_nl.
  apply (write_to_file_other _ _ _
           (log_folder pretrained dropout +:+ sep +:+ "val_loss.txt"))
    in E1, E2, E3; try (apply log_files_distinct; discriminate).
  injection Emin as _ <-. injection Eopt as <-.
  unfold torch_load in Eload. repeat case_match; simplify_eq.
  unfold same in *. simpl in *. rewrite E3, E2, E1, Hfs.
  by rewrite append_nil_r, !append_assoc.
Qed.

End Logs.

(** ** What [evaluate] leaves behind *)

Section EvaluateOut.
Context `{Torch} `{Os}.

Lemma eval_turn_on ms :
  map (set_training false) (turn_on_dropout_modules ms)
  = map (set_training false) ms.
Proof.
  unfold turn_on_dropout_modules. rewrite map_map. apply map_ext.
  intros m. by destruct (is_dropout m).
Qed.

Lemma eval_eval ms :
  map (set_training false) (map (set_training false) ms)
  = map (set_training false) ms.
Proof. rewrite map_map. by apply map_ext. Qed.

Lemma modes_after_batch_idem dropout ms :
  modes_after_batch dropout (modes_after_batch dropout ms)
  = modes_after_batch dropout ms.
Proof.
  unfold modes_after_batch. destruct (0 <? dropout)%float.
  - by rewrite eval_turn_on, eval_eval.
  - by rewrite eval_eval.
Qed.

Lemma mcd_samples_modules b T : preserves (same w_modules) (mcd_samples b T).
Proof. unfold mcd_samples. frame. Qed.

Lemma evaluate_body_modules dropout T b st (w : world) st' w' :
  evaluate_body dropout T b st w = (Ok st', w') ->
  w_modules w' = modes_after_batch dropout (w_modules w).
Proof.
  intros E. unfold evaluate_body in E. unfold modes_after_batch.
  apply bind_Ok in E as ([] & w1 & [= <-] & E).
  apply bind_Ok in E as ([[loss logits] gr] & w2 & E2 & E).
  assert (Hm2 : w_modules w2 = map (set_training false) (w_modules w)).
  { unfold call_model in E2. destruct (model_call _ _ _ _ _).
    by injection E2 as _ <-. }
  apply bind_Ok in E as (predictions & w3 & [= _ <-] & E).
  apply bind_Ok in E as (cm & w4 & [= _ <-] & E).
  apply bind_Ok in E as (acc & w5 & [= _ <-] & E).
  destruct (0 <? dropout)%float.
  - apply bind_Ok in E as ([] & w6 & [= <-] & E).
    apply bind_Ok in E as (samples & w7 & E7 & E).
    apply mcd_samples_modules in E7. unfold same in E7. simpl in E7.
    apply bind_Ok in E as (votes & w8 & [= _ <-] & E).
    apply bind_Ok in E as (cm' & w9 & [= _ <-] & E).
    apply bind_Ok in E as (acc' & w10 & [= _ <-] & E).
    injection E as _ <-. by rewrite E7, Hm2.
  - by injection E as _ <-.
Qed.

Lemma evaluate_for_each_modules dropout T bs : forall st (w : world) st' w',
  bs <> [] ->
  for_each bs (evaluate_body dropout T) st w = (Ok st', w') ->
  w_modules w' = modes_after_batch dropout (w_modules w).
Proof.
  induction bs as [|b bs IH]; intros st w st' w' Hne E; [done|].
  rewrite for_each_cons in E. apply bind_Ok in E as (st1 & w1 & E1 & E).
  apply evaluate_body_modules in E1.
  destruct bs as [|b' bs'].
  - injection E as _ <-. done.
  - apply IH in E; [|done]. by rewrite E, E1, modes_after_batch_idem.
Qed.

Lemma evaluate_params dl pretrained dropout T :
  preserves (same w_params) (evaluate dl pretrained dropout T).
Proof.
  unfold evaluate, evaluate_loop, evaluate_body, mcd_samples, write_to_file.
  frame.
Qed.

Lemma evaluate_opt dl pretrained dropout T :
  preserves (same w_opt) (evaluate dl pretrained dropout T).
Proof.
  unfold evaluate, evaluate_loop, evaluate_body, mcd_samples, write_to_file.
  frame.
Qed.

Lemma write_to_file_modules folder file text :
  preserves (same w_modules) (write_to_file folder file text).
Proof. unfold write_to_file. frame. Qed.

#[local] Hint Resolve write_to_file_modules : frame.

(** [evaluate] never changes the parameters or the optimizer, but it does
    not put the model back: when it returns, every module is in evaluation
    mode, except that with dropout the dropout modules are left in training
    mode. *)
Theorem evaluate_leaves_dropout_on dl pretrained dropout T (w : world) x w' :
  evaluate dl pretrained dropout T w = (Ok x, w') ->
  w_params w' = w_params w /\ w_opt w' = w_opt w /\
  w_modules w'
  = if (0 <? dropout)%float
    then turn_on_dropout_modules (map (set_training false) (w_modules w))
    else map (set_training false) (w_modules w).
Proof.
  intros E.
  split; [by apply evaluate_params in E|].
  split; [by apply evaluate_opt in E|].
  unfold evaluate in E. apply bind_Ok in E as (st & w1 & Eloop & E).
  assert (Hn : (0 < dl_len dl)%nat).
  { apply bind_Ok in E as (mean & w2 & Ediv & _).
    destruct (dl_len dl); [discriminate|lia]. }
  match type of E with
  | ?f _ = _ => assert (Hp : preserves (same w_modules) f) by frame
  end.
  apply Hp in E. unfold same in E. rewrite E.
  unfold evaluate_loop in Eloop.
  apply bind_Ok in Eloop as (bs & w2 & [= <- <-] & Eloop).
  apply evaluate_for_each_modules in Eloop; [exact Eloop|].
  destruct (dl_len dl); [lia|done].
Qed.

Lemma fs_append_at path text (w : world) r w' :
  fs_append path text w = (r, w') ->
  w_fs w' !! path = Some (default "" (w_fs w !! path) +:+ text).
Proof. intros [= <- <-]. simpl. unfold append_file. by rewrite lookup_insert_eq. Qed.

Lemma write_line_at folder file text (w : world) r w' :
  write_to_file folder file (text +:+ nl) w = (r, w') ->
  w_fs w' !! (folder +:+ sep +:+ file)
  = Some (default "" (w_fs w !! (folder +:+ sep +:+ file)) +:+ text +:+ nl).
Proof.
  intros E. apply write_to_file_at in E as [_ E].
  rewrite contains_newline_app, contains_newline_nl, orb_true_r in E.
  by rewrite append_nil_r in E.
Qed.

(** [evaluate] logs what it returns: the value it returns is the running
    accuracy divided by the number of batches; [test_accuracy.txt] is
    extended by that value and a newline (no blank), [confusion_matrix.txt]
    by the matrix of the loop; with dropout the same holds for the two MCD
    files and the MCD values. *)
Theorem evaluate_logs_what_it_returns dl pretrained dropout T (w : world) x w' :
  evaluate dl pretrained dropout T w = (Ok x, w') ->
  let file := fun name => log_folder pretrained dropout +:+ sep +:+ name in
  exists st w1,
    evaluate_loop dl dropout T w = (Ok st, w1) /\
    py_div_len (average_acc st) (dl_len dl) = Ok x /\
    w_fs w' !! file "test_accuracy.txt"
    = Some (default "" (w_fs w !! file "test_accuracy.txt")
            +:+ float_str x +:+ nl) /\
    w_fs w' !! file "confusion_matrix.txt"
    = Some (default "" (w_fs w !! file "confusion_matrix.txt")
            +:+ savetxt (confusion_matrix st)) /\
    ((0 <? dropout)%float = true ->
     exists x_mcd,
       py_div_len (average_acc_mcd st) (dl_len dl) = Ok x_mcd /\
       w_fs w' !! file "test_accuracy_mcd.txt"
       = Some (default "" (w_fs w !! file "test_accuracy_mcd.txt")
               +:+ float_str x_mcd +:+ nl) /\
       w_fs w' !! file "confusion_matrix_mcd.txt"
       = Some (default "" (w_fs w !! file "confusion_matrix_mcd.txt")
               +:+ savetxt (confusion_matrix_mcd st))).
Proof.
  intros E file. subst file. cbv beta. unfold evaluate in E.
  set (folder := log_folder pretrained dropout) in *.
  apply bind_Ok in E as (st & w1 & Eloop & E).
  apply evaluate_loop_fs in Eloop as Hfs1. unfold same in Hfs1.
  exists st, w1. split; [done|].
  apply bind_Ok in E as (mean & w2 & [= Ediv <-] & E).
  apply bind_Ok in E as ([] & w3 & E3 & E).
  apply bind_Ok in E as ([] & w4 & E4 & E).
  apply bind_Ok in E as ([] & w5 & E5 & E).
  injection E as E <-. rewrite Ediv in E. injection E as <-.
  split; [done|].
  assert (Hne : forall a b : string,
            a <> b -> folder +:+ sep +:+ a <> folder +:+ sep +:+ b).
  { intros a b Hab. by apply log_files_distinct. }
  apply write_line_at in E3 as A3. rewrite Hfs1 in A3.
  apply fs_append_at in E4 as A4.
  apply (write_to_file_other _ _ _ (folder +:+ sep +:+ "confusion_matrix.txt"))
    in E3 as O3cm; [|apply Hne; discriminate].
  apply (fs_append_other _ _ (folder +:+ sep +:+ "test_accuracy.txt"))
    in E4 as O4ta; [|apply Hne; discriminate].
  unfold same in *. rewrite O3cm, Hfs1 in A4.
  destruct (0 <? dropout)%float eqn:Hd.
  - apply bind_Ok in E5 as (mean_mcd & w6 & [= Emcd <-] & E5).
    apply bind_Ok in E5 as ([] & w7 & E7 & E8).
    apply write_line_at in E7 as A7. apply fs_append_at in E8 as A8.
    apply (write_to_file_other _ _ _ (folder +:+ sep +:+ "test_accuracy.txt"))
      in E7 as O7ta; [|apply Hne; discriminate].
    apply (write_to_file_other _ _ _ (folder +:+ sep +:+ "confusion_matrix.txt"))
      in E7 as O7cm; [|apply Hne; discriminate].
    apply (write_to_file_other _ _ _ (folder +:+ sep +:+ "confusion_matrix_mcd.txt"))
      in E7 as O7cmm; [|apply Hne; discriminate].
    apply (fs_append_other _ _ (folder +:+ sep +:+ "test_accuracy.txt"))
      in E8 as O8ta; [|apply Hne; discriminate].
    apply (fs_append_other _ _ (folder +:+ sep +:+ "confusion_matrix.txt"))
      in E8 as O8cm; [|apply Hne; discriminate].
    apply (fs_append_other _ _ (folder +:+ sep +:+ "test_accuracy_mcd.txt"))
      in E8 as O8tam; [|apply Hne; discriminate].
    apply (write_to_file_other _ _ _ (folder +:+ sep +:+ "test_accuracy_mcd.txt"))
      in E3 as O3tam; [|apply Hne; discriminate].
    apply (write_to_file_other _ _ _ (folder +:+ sep +:+ "confusion_matrix_mcd.txt"))
      in E3 as O3cmm; [|apply Hne; discriminate].
    apply (fs_append_other _ _ (folder +:+ sep +:+ "test_accuracy_mcd.txt"))
      in E4 as O4tam; [|apply Hne; discriminate].
    apply (fs_append_other _ _ (folder +:+ sep +:+ "confusion_matrix_mcd.txt"))
      in E4 as O4cmm; [|apply Hne; discriminate].
    unfold same in *.
    split; [by rewrite O8ta, O7ta, O4ta|].
    split; [by rewrite O8cm, O7cm|].
    intros _. exists mean_mcd. split; [done|]. split.
    + by rewrite O8tam, A7, O4tam, O3tam, Hfs1.
    + by rewrite A8, O7cmm, O4cmm, O3cmm, Hfs1.
  - injection E5 as <-.
    split; [by rewrite O4ta|]. split; [done|discriminate].
Qed.

End EvaluateOut.

(** ** When [train] and [evaluate] return *)

Section Returns.
Context `{Torch} `{Os}.

Lemma point_prediction_Ok b p ms g :
  well_shaped b ->
  exists classes acc,
    np.argmax_rows (model_call p ms g (b_inputs b) (b_labels b)).1.1.2
    = Ok classes /\
    length classes = length (b_labels b) /\ in_range 3 classes /\
    accuracy_score (b_labels b) classes = Ok acc.
Proof.
  intros Hws. destruct (Hws p ms g) as [Hlen Hrows].
  destruct (argmax_rows_shape 2 _ Hrows) as (classes & Hc & Hl & Hin).
  exists classes. unfold accuracy_score. rewrite decide_True by lia.
  eexists. repeat split; try done. lia.
Qed.


















End Returns.

(** ** Paths, NaN losses, and [T <= 0] *)

Section PathsMore.
Context `{Os}.

(** The files never collide: two epochs have different checkpoint files, no
    checkpoint file is a log file, and two runs share a log folder only when
    they agree on [pretrained] and on whether [dropout == 0]. *)
Theorem paths_do_not_collide :
  (forall i j, checkpoint_path i = checkpoint_path j -> i = j) /\
  (forall pretrained dropout file i,
     log_folder pretrained dropout +:+ sep +:+ file <> checkpoint_path i) /\
  (forall p1 d1 p2 d2,
     log_folder p1 d1 = log_folder p2 d2 ->
     p1 = p2 /\ (d1 =? 0)%float = (d2 =? 0)%float).
Proof.
  split; [exact checkpoint_path_inj|]. split; [exact log_file_not_checkpoint|].
  intros p1 d1 p2 d2. unfold log_folder.
  destruct p1, p2, (d1 =? 0)%float, (d2 =? 0)%float; intros Heq;
    rewrite !append_assoc in Heq;
    repeat (apply (inj (String.app _)) in Heq);
    first [discriminate | done].
Qed.

End PathsMore.

Section NaN.
Context `{Torch} `{Os}.

(** A NaN wins: when one of the recorded losses is a NaN, the index
    [np.argmin] returns is that of the first NaN, so [train] restores the
    checkpoint of the first epoch whose validation loss is a NaN. *)
Theorem train_restores_first_nan tdl vdl epochs pretrained dropout
    (w : world) w' :
  train tdl vdl epochs pretrained dropout w = (Ok tt, w') ->
  exists val_losses w_end j bytes,
    epoch_loop tdl vdl pretrained dropout (seq 0 (Z.to_nat epochs)) [] w
    = (Ok val_losses, w_end) /\
    np.argmin val_losses = Ok j /\
    w_fs w' !! checkpoint_path j = Some bytes /\
    unpickle bytes = Some (w_params w') /\
    ((exists x, x ∈ val_losses /\ PrimFloat.is_nan x = true) ->
     (exists x, val_losses !! j = Some x /\ PrimFloat.is_nan x = true) /\
     forall k y, (k < j)%nat -> val_losses !! k = Some y ->
       PrimFloat.is_nan y = false).
Proof.
  intros E.
  apply train_Ok in E as (val_losses & w_end & Eloop & Erest).
  apply restore_best_Ok in Erest
    as (j & bytes & Emin & Efile & Eun & _ & _ & Hfs).
  exists val_losses, w_end, j, bytes.
  split; [done|]. split; [done|].
  split; [rewrite Hfs; [done|apply checkpoint_not_a_log]|]. split; [done|].
  intros (n & Hn & Hnan).
  apply argmin_spec in Emin as (x & Hx & [Hin Hmin] & Hfirst).
  assert (Hxnan : PrimFloat.is_nan x = true).
  { destruct Hmin as [Hmin|Hmin]; [done|].
    specialize (Hmin n Hn). by rewrite (FloatOrder.leb_nan_r x n Hnan) in Hmin. }
  split; [by exists x|].
  intros k y Hk Hy. destruct (PrimFloat.is_nan y) eqn:Hynan; [|done].
  exfalso. apply (Hfirst k y Hk Hy). split; [|by left].
  eapply list_elem_of_lookup_2; eauto.
Qed.

End NaN.

Section NoPass.
Context `{Torch} `{Os}.

Lemma evaluate_body_no_pass dropout t b st (w : world) :
  (0 <? dropout)%float = true -> t <= 0 ->
  exists e w', evaluate_body dropout (Some t) b st w = (Raise e, w') /\
    (rect 3 3 (confusion_matrix st) -> well_shaped b -> labelled b ->
     e = AxisError).
Proof.
  intros Hd Ht. unfold evaluate_body, mcd_samples. rewrite Hd.
  replace (Z.to_nat t) with 0%nat by lia.
  pose proof (point_prediction_Ok b (w_params w)
                (map (set_training false) (w_modules w)) (w_rng w)) as Hpoint.
  unfold bind, model_eval, modify, call_model. simpl.
  destruct (model_call _ _ _ _ _) as [[[loss logits] gr] g]. simpl in *.
  unfold lift.
  destruct (np.argmax_rows logits) as [classes|e1] eqn:E1.
  - destruct (update_confusion_matrix _ classes _) as [cm|e2] eqn:E2.
    + destruct (accuracy_score _ classes) as [acc|e3] eqn:E3.
      * simpl. eexists _, _. split; [reflexivity|done].
      * eexists _, _. split; [reflexivity|]. intros _ Hws _.
        destruct (Hpoint Hws) as (c & a & [= <-] & _ & _ & Ha).
        rewrite E3 in Ha. discriminate.
    + eexists _, _. split; [reflexivity|]. intros Hrect Hws Hlab.
      destruct (Hpoint Hws) as (c & a & [= <-] & Hlen & Hin & _).
      destruct (update_confusion_matrix_spec 3 3 (confusion_matrix st)
                  classes (b_labels b)) as (cm & Hcm & _); [done..|].
      rewrite E2 in Hcm. discriminate.
  - eexists _, _. split; [reflexivity|]. intros _ Hws _.
    destruct (Hpoint Hws) as (c & a & [=] & _).
Qed.

(** With dropout, [T] must be at least 1: for [T <= 0] and a non-empty
    dataloader [evaluate] raises with every file as it was; when the point
    prediction of the first batch goes through, the exception is the
    [AxisError] of [np.argmax(..., axis=2)] on the empty list of samples. *)
Theorem evaluate_needs_a_pass dl pretrained dropout t (w : world) :
  (0 < dl_len dl)%nat ->
  (0 <? dropout)%float = true ->
  t <= 0 ->
  exists e w',
    evaluate dl pretrained dropout (Some t) w = (Raise e, w') /\
    w_fs w' = w_fs w /\
    (well_shaped (dl_batch dl (w_rng w) 0) ->
     labelled (dl_batch dl (w_rng w) 0) -> e = AxisError).
Proof.
  intros Hn Hd Ht.
  destruct (dl_len dl) as [|n] eqn:En; [lia|].
  set (w1 := set_rng (dl_advance dl (w_rng w)) w).
  destruct (evaluate_body_no_pass dropout t (dl_batch dl (w_rng w) 0)
              eval_init w1 Hd Ht) as (e & w' & Hbody & He).
  assert (Hloop : evaluate_loop dl dropout (Some t) w = (Raise e, w')).
  { unfold evaluate_loop, bind, iterate. rewrite En. simpl.
    unfold bind. fold w1. by rewrite Hbody. }
  exists e, w'. split; [|split].
  - unfold evaluate. by rewrite (bind_run_Raise _ _ _ _ _ Hloop).
  - by apply evaluate_loop_fs in Hloop.
  - intros Hws Hlab. apply He; [apply rect_zeros33|done..].
Qed.

End NoPass.

(** ** The cost of MC dropout *)

Section McdCost.
Context `{Torch} `{Os}.

Lemma mcd_samples_calls b t (w : world) samples w' :
  mcd_samples b (Some t) w = (Ok samples, w') ->
  length (w_calls w') = (length (w_calls w) + Z.to_nat t)%nat.
Proof.
  unfold mcd_samples. intros E.
  assert (Hgen : forall (idx : list nat) acc (w : world) samples w',
    for_each idx (fun (_ : nat) (samples : list (list (list float))) =>
        bind (call_model b) (fun predictions =>
          let '(_, logits, _) := predictions in ret (samples ++ [logits])))
      acc w = (Ok samples, w') ->
    length (w_calls w') = (length (w_calls w) + length idx)%nat).
  { clear. induction idx as [|i idx IH]; intros acc w samples w'.
    - intros [= <- <-]. simpl. lia.
    - rewrite for_each_cons. intros E.
      apply bind_Ok in E as (acc1 & w1 & E1 & E).
      apply IH in E. rewrite E.
      apply bind_Ok in E1 as ([[loss logits] gr] & w2 & Ecall & [= _ <-]).
      unfold call_model in Ecall. destruct (model_call _ _ _ _ _).
      injection Ecall as _ <-. simpl. lia. }
  apply Hgen in E. by rewrite length_seq in E.
Qed.

Lemma evaluate_body_cost dropout t b st (w : world) st' w' :
  (0 <? dropout)%float = true ->
  evaluate_body dropout (Some t) b st w = (Ok st', w') ->
  length (w_calls w') = (length (w_calls w) + 1 + Z.to_nat t)%nat.
Proof.
  intros Hd E. unfold evaluate_body in E. rewrite Hd in E.
  apply bind_Ok in E as ([] & w1 & [= <-] & E).
  apply bind_Ok in E as ([[loss logits] gr] & w2 & E2 & E).
  assert (Hc2 : length (w_calls w2) = S (length (w_calls w))).
  { unfold call_model in E2. destruct (model_call _ _ _ _ _).
    by injection E2 as _ <-. }
  apply bind_Ok in E as (predictions & w3 & [= _ <-] & E).
  apply bind_Ok in E as (cm & w4 & [= _ <-] & E).
  apply bind_Ok in E as (acc & w5 & [= _ <-] & E).
  apply bind_Ok in E as ([] & w6 & [= <-] & E).
  apply bind_Ok in E as (samples & w7 & E7 & E).
  apply mcd_samples_calls in E7. simpl in E7.
  apply bind_Ok in E as (votes & w8 & [= _ <-] & E).
  apply bind_Ok in E as (cm' & w9 & [= _ <-] & E).
  apply bind_Ok in E as (acc' & w10 & [= _ <-] & E).
  injection E as _ <-. lia.
Qed.

Lemma evaluate_for_each_cost dropout t bs : forall st (w : world) st' w',
  (0 <? dropout)%float = true ->
  for_each bs (evaluate_body dropout (Some t)) st w = (Ok st', w') ->
  length (w_calls w')
  = (length (w_calls w) + length bs * (1 + Z.to_nat t))%nat.
Proof.
  induction bs as [|b bs IH]; intros st w st' w' Hd E.
  - injection E as _ <-. simpl. lia.
  - rewrite for_each_cons in E. apply bind_Ok in E as (st1 & w1 & E1 & E).
    apply evaluate_body_cost in E1; [|done]. apply IH in E; [|done].
    simpl. lia.
Qed.

#[local] Hint Resolve write_to_file_calls : frame.

(** The cost of MC dropout: when [evaluate] returns with dropout and
    [T = t], it has made [1 + t] forward passes for each batch. *)
Theorem evaluate_mcd_passes dl pretrained dropout t (w : world) x w' :
  (0 <? dropout)%float = true ->
  evaluate dl pretrained dropout (Some t) w = (Ok x, w') ->
  length (w_calls w')
  = (length (w_calls w) + dl_len dl * (1 + Z.to_nat t))%nat.
Proof.
  intros Hd E. unfold evaluate in E.
  apply bind_Ok in E as (st & w1 & Eloop & E).
  match type of E with
  | ?f _ = _ => assert (Hp : preserves (same w_calls) f) by frame
  end.
  apply Hp in E. unfold same in E. rewrite E.
  unfold evaluate_loop in Eloop.
  apply bind_Ok in Eloop as (bs & w2 & [= <- <-] & Eloop).
  apply evaluate_for_each_cost in Eloop; [|done].
  by rewrite length_map, length_seq in Eloop.
Qed.

End McdCost.

(** * Runs of the small instance *)

Import Toy.

Lemma run_eq {A W} (x : result A * W) a : x.1 = Ok a -> x = (Ok a, x.2).
Proof. destruct x as [r w]. simpl. by intros ->. Defined.


Lemma step_means_are_unweighted_witness :
  (0 < dl_len three_batches)%nat /\
  validation_step three_batches w0
  = bind (validation_metrics three_batches)
      (fun ms => ret (batch_means 3 ms)) w0.
Proof.
  assert (Hn : (0 < dl_len three_batches)%nat) by (vm_compute; lia).
  split; [exact Hn|].
  exact (proj1 (proj2 (proj1 step_means_are_unweighted torch three_batches w0 Hn))).
Defined.

Lemma evaluate_needs_T_witness :
  (0 < dl_len three_batches)%nat /\
  (evaluate three_batches true 0.5%float None w0).1 = Raise TypeError /\
  w_fs (evaluate three_batches true 0.5%float None w0).2 = ∅.
Proof.
  assert (Hn : (0 < dl_len three_batches)%nat) by (simpl; lia).
  split; [exact Hn|].
  destruct (evaluate_needs_T three_batches true 0.5%float w0 Hn eq_refl)
    as (e & w' & Hrun & Hfs & He).
  rewrite Hrun. simpl. split; [|exact Hfs].
  f_equal. apply He.
  - reflexivity.
  - repeat constructor.
  - repeat constructor; lia.
Defined.

Lemma evaluate_without_dropout_witness :
  (evaluate three_batches true 0%float None w0).1 = Ok 0.5%float /\
  w_fs (evaluate three_batches true 0%float None w0).2
    !! "/run/evaluation_data/pretrained/normal/test_accuracy_mcd.txt" = None /\
  length (w_calls (evaluate three_batches true 0%float None w0).2) = 3%nat.
Proof.
  assert (H1 : (evaluate three_batches true 0%float None w0).1 = Ok 0.5%float)
    by (vm_compute; reflexivity).
  split; [exact H1|].
  destruct (evaluate_without_dropout three_batches true 0%float None w0
              _ _ eq_refl (run_eq _ _ H1))
    as (Hmcd & _ & (calls & Hcalls & _ & _ & Hok) & _).
  split.
  - exact (Hmcd "/run/evaluation_data/pretrained/normal/test_accuracy").
  - rewrite Hcalls, length_app, (Hok 0.5%float H1). reflexivity.
Defined.

Lemma pickle_roundtrip p : unpickle (pickle p) = Some p.
Proof.
  simpl. f_equal. induction p as [|p IH]; simpl; [done|]. by f_equal.
Defined.


(** On the same run the restored weight is 1, the weight that entered
    epoch 1, while the loss 0.5 recorded for epoch 1 was measured with the
    weight 2 that its training pass produced. *)
Lemma checkpoints_hold_entering_state_witness :
  let run := train one_batch one_batch 3 true 0%float w0 in
  run.1 = Ok tt /\
  exists w_1 tr w_t va w_v,
    (epoch_loop one_batch one_batch true 0%float (seq 0 1) [] w0).2 = w_1 /\
    w_params w_1 = 1%nat /\
    w_fs run.2 !! checkpoint_path 1 = Some (pickle (w_params w_1)) /\
    training_step one_batch (torch_save (checkpoint_path 1) w_1).2 = (Ok tr, w_t) /\
    w_params w_t = 2%nat /\
    validation_step one_batch w_t = (Ok va, w_v) /\
    va.2 = 0.5%float /\
    w_params run.2 = w_params w_1.
Proof.
  cbv zeta.
  assert (H1 : (train one_batch one_batch 3 true 0%float w0).1 = Ok tt)
    by (vm_compute; reflexivity).
  split; [exact H1|].
  destruct (checkpoints_hold_entering_state one_batch one_batch 3 true 0%float
              w0 _ pickle_roundtrip (run_eq _ tt H1))
    as (val_losses & w_end & j & Hloop & Hmin & Hi & _).
  change (Z.to_nat 3) with 3%nat in Hloop, Hi.
  assert (H2 : (epoch_loop one_batch one_batch true 0%float (seq 0 3) [] w0).1
               = Ok [1; 0.5; 0.5]%float) by (vm_compute; reflexivity).
  rewrite Hloop in H2. injection H2 as ->.
  assert (Hj : j = 1%nat).
  { vm_compute in Hmin. by injection Hmin. }
  destruct (Hi 1%nat ltac:(lia))
    as (l1 & w1 & tr & wt & va & wv & Hl1 & Hck & Htr & Hva & Hl & Hp).
  exists w1, tr, wt, va, wv.
  assert (Hw1 : (epoch_loop one_batch one_batch true 0%float (seq 0 1) [] w0).2
                = w1) by (by rewrite Hl1).
  assert (Hp1 : w_params w1 = 1%nat).
  { rewrite <- Hw1. vm_compute. reflexivity. }
  split; [exact Hw1|]. split; [exact Hp1|]. split; [exact Hck|].
  split; [exact Htr|]. split.
  { assert (Ht : w_params (training_step one_batch
                   (torch_save (checkpoint_path 1) w1).2).2 = 2%nat).
    { rewrite <- Hw1. vm_compute. reflexivity. }
    by rewrite Htr in Ht. }
  split; [exact Hva|]. split.
  { simpl in Hl. injection Hl as Hl. by rewrite <- Hl. }
  apply Hp. symmetry. exact Hj.
Defined.

(** C2 on the same run: after [train] the state of the optimizer that was
    passed in is the step count 3 of the three epochs, not the state 0 of a
    new optimizer, which only sits in the attribute [params]. *)
Lemma train_leaves_optimizer_state :
  let w' := (train one_batch one_batch 3 true 0%float w0).2 in
  (train one_batch one_batch 3 true 0%float w0).1 = Ok tt /\
  o_state (w_opt w') = 3%nat /\
  AdamW (w_params w') = 0%nat /\
  o_params (w_opt w') = Some 0%nat.
Proof. vm_compute. repeat split. Qed.

(** The vote on the first batch, five passes: sample 0 gets the classes
    0, 1, 2, 0, 1 and sample 1 the classes 1, 2, 0, 1, 2; both are ties, and
    the lower class wins. *)
Lemma mcd_vote_is_mode_witness :
  exists st' votes,
    (evaluate_body 0.5 (Some 5) first_batch eval_init w0).1 = Ok st' /\
    confusion_matrix_mcd st' = [[1; 0; 0]; [0; 1; 0]; [0; 0; 0]] /\
    update_confusion_matrix np.zeros33 votes [0; 1]
    = Ok (confusion_matrix_mcd st').
Proof.
  pose (st' := EvalState [[1; 0; 0]; [0; 1; 0]; [0; 0; 0]]
                 [[1; 0; 0]; [0; 1; 0]; [0; 0; 0]] 1 1).
  assert (H1 : (evaluate_body 0.5 (Some 5) first_batch eval_init w0).1 = Ok st')
    by (vm_compute; reflexivity).
  destruct (proj1 mcd_vote_is_mode torch os 0.5%float (Some 5) first_batch
              eval_init w0 st' _ eq_refl (run_eq _ _ H1))
    as (t & samples & votes & classes & w1 & w2 & _ & _ & _ & _ & _ & _ & Hcm).
  exists st', votes. split; [exact H1|]. split; [reflexivity|exact Hcm].
Defined.

(** C9, as stated, fails: the text [a\nb] has no trailing newline, and no
    blank follows it in the file. *)
Lemma write_to_file_trailing_newline_counterexample :
  ~ (forall (folder file text : string) (w : world),
       let path := folder +:+ sep +:+ file in
       w_fs (write_to_file folder file text w).2 !! path
       = Some (default "" (w_fs w !! path) +:+ text +:+
               (if ends_with_newline text then "" else " "))).
Proof.
  intros Hclaim.
  specialize (Hclaim "logs" "f.txt" ("a" +:+ nl +:+ "b") Toy.w0).
  vm_compute in Hclaim. discriminate.
Qed.


Lemma update_confusion_matrix_lengths_witness :
  update_confusion_matrix np.zeros33 [0; 1; 1] [0; 1] = Raise IndexError /\
  update_confusion_matrix np.zeros33 [0; 1] [0; 1; 7]
  = Ok [[1; 0; 0]; [0; 1; 0]; [0; 0; 0]].
Proof.
  split.
  - apply (proj1 (update_confusion_matrix_lengths np.zeros33 [0; 1; 1] [0; 1])).
    simpl. lia.
  - rewrite (proj1 (proj2 (update_confusion_matrix_lengths np.zeros33
                              [0; 1] [0; 1; 7]))) by (simpl; lia).
    reflexivity.
Defined.

Lemma train_no_epochs_witness :
  train one_batch one_batch 0 true 0%float w0 = (Raise ValueError, w0).
Proof. apply train_no_epochs. lia. Defined.

Lemma empty_dataloader_raises_witness :
  (training_step (fixed []) w0).1 = Raise ZeroDivisionError.
Proof. exact (proj1 (empty_dataloader_raises (fixed []) w0 eq_refl)). Defined.

Lemma train_empty_dataloader_witness :
  exists w',
    train (fixed []) one_batch 2 true 0%float w0 = (Raise ZeroDivisionError, w') /\
    w_fs w' = <[checkpoint_path 0 := pickle (w_params w0)]> (w_fs w0) /\
    w_params w' = w_params w0 /\ w_opt w' = w_opt w0.
Proof. apply train_empty_dataloader; [reflexivity|lia]. Defined.

Lemma evaluate_leaves_dropout_on_witness :
  w_modules (evaluate three_batches true 0.5%float (Some 5) w0).2
  = [Module "BertForSequenceClassification" false;
     Module "BertEmbeddings" false;
     Module "LayerNorm" false;
     Module "Dropout" true;
     Module "Linear" false].
Proof.
  assert (H1 : (evaluate three_batches true 0.5%float (Some 5) w0).1
               = Ok 0.5%float) by (vm_compute; reflexivity).
  destruct (evaluate_leaves_dropout_on three_batches true 0.5%float (Some 5)
              w0 _ _ (run_eq _ _ H1)) as (_ & _ & Hm).
  rewrite Hm. reflexivity.
Defined.

Lemma evaluate_logs_what_it_returns_witness :
  w_fs (evaluate three_batches true 0%float None w0).2
    !! (log_folder true 0%float +:+ sep +:+ "test_accuracy.txt")
  = Some ("" +:+ float_str 0.5%float +:+ nl).
Proof.
  assert (H1 : (evaluate three_batches true 0%float None w0).1
               = Ok 0.5%float) by (vm_compute; reflexivity).
  destruct (evaluate_logs_what_it_returns three_batches true 0%float None
              w0 _ _ (run_eq _ _ H1)) as (st & w1 & _ & _ & Hta & _).
  exact Hta.
Defined.

Lemma pretty_N_char_no_newline x :
  Ascii.eqb (pretty_N_char x) newline_char = false.
Proof. unfold pretty_N_char. by repeat case_match. Qed.

Lemma pretty_N_go_no_newline x : forall s,
  contains_newline (pretty_N_go x s) = contains_newline s.
Proof.
  induction (N.lt_wf_0 x) as [x _ IH]; intros s.
  destruct (decide (x = 0)%N) as [->|Hx]; [by rewrite pretty_N_go_0|].
  rewrite pretty_N_go_step by lia. rewrite IH by (apply N.div_lt; lia).
  simpl. by rewrite pretty_N_char_no_newline.
Qed.

Lemma pretty_N_no_newline (x : N) : contains_newline (pretty x) = false.
Proof.
  unfold pretty, pretty_N. destruct (decide (x = 0)%N); [done|].
  by rewrite pretty_N_go_no_newline.
Qed.

Lemma pretty_Z_no_newline (x : Z) : contains_newline (pretty x) = false.
Proof.
  destruct x as [|p|p]; unfold pretty, pretty_Z, pretty, pretty_positive;
    [done| |].
  - apply pretty_N_no_newline.
  - rewrite contains_newline_app, pretty_N_no_newline. done.
Qed.

Lemma toy_str_no_newline x : contains_newline (float_str x) = false.
Proof.
  simpl. unfold toy_str. destruct (Prim2SF x) as [s|s| |s m e].
  - done.
  - by destruct s.
  - done.
  - rewrite !contains_newline_app, !pretty_Z_no_newline. by destruct s.
Qed.

Lemma train_appends_val_losses_witness :
  w_fs (train one_batch one_batch 3 true 0%float w0).2
    !! (log_folder true 0%float +:+ sep +:+ "val_loss.txt")
  = Some ("" +:+ log_line [1; 0.5; 0.5]%float +:+ nl).
Proof.
  assert (H1 : (train one_batch one_batch 3 true 0%float w0).1 = Ok tt)
    by (vm_compute; reflexivity).
  destruct (train_appends_val_losses one_batch one_batch 3 true 0%float w0 _
              toy_str_no_newline (run_eq _ _ H1))
    as (val_losses & w_end & Hloop & Hfs).
  assert (H2 : (epoch_loop one_batch one_batch true 0%float (seq 0 3) [] w0).1
               = Ok [1; 0.5; 0.5]%float) by (vm_compute; reflexivity).
  change (Z.to_nat 3) with 3%nat in Hloop.
  rewrite Hloop in H2. injection H2 as ->. exact Hfs.
Defined.

Lemma training_step_passes_witness :
  length (w_calls (training_step training_batches w0).2) = 3%nat.
Proof.
  assert (H1 : (training_step training_batches w0).1
               = Ok (0.5%float, (2.5 / 3)%float)) by (vm_compute; reflexivity).
  destruct (training_step_passes training_batches w0 _ _ (run_eq _ _ H1))
    as (_ & _ & calls & Hc & _ & _ & Hok).
  rewrite Hc, length_app, (Hok _ eq_refl). reflexivity.
Defined.

Lemma validation_step_updates_nothing_witness :
  w_params (validation_step three_batches w0).2 = O.
Proof.
  assert (H1 : (validation_step three_batches w0).1 = Ok (0.5, 1)%float)
    by (vm_compute; reflexivity).
  destruct (validation_step_updates_nothing three_batches w0 _ _
              (run_eq _ _ H1)) as (Hp & _).
  rewrite Hp. reflexivity.
Defined.

Lemma toy_well_shaped xs labels :
  length xs = length labels -> well_shaped (Batch xs labels).
Proof.
  intros Hlen p ms g. simpl. unfold toy_call. simpl.
  rewrite length_map. split; [done|].
  apply Forall_fmap, Forall_true. done.
Qed.



Lemma evaluate_mcd_passes_witness :
  length (w_calls (evaluate three_batches true 0.5%float (Some 5) w0).2)
  = 18%nat.
Proof.
  assert (H1 : (evaluate three_batches true 0.5%float (Some 5) w0).1
               = Ok 0.5%float) by (vm_compute; reflexivity).
  rewrite (evaluate_mcd_passes three_batches true 0.5%float 5 w0 _ _ eq_refl
             (run_eq _ _ H1)).
  reflexivity.
Defined.

Lemma evaluate_needs_a_pass_witness :
  (evaluate three_batches true 0.5%float (Some 0) w0).1 = Raise AxisError.
Proof.
  assert (Hn : (0 < dl_len three_batches)%nat) by (simpl; lia).
  destruct (evaluate_needs_a_pass three_batches true 0.5%float 0 w0 Hn eq_refl
              ltac:(lia)) as (e & w' & Hrun & _ & He).
  rewrite Hrun. simpl. f_equal. apply He.
  - by apply toy_well_shaped.
  - repeat constructor; lia.
Defined.

Lemma train_restores_first_nan_witness :
  exists val_losses,
    (@epoch_loop diverging os diverging_batch diverging_batch true 0%float
       (seq 0 3) [] diverging_w0).1 = Ok val_losses /\
    val_losses = [1%float; nan; nan] /\
    np.argmin val_losses = Ok 1%nat /\
    w_params (@train diverging os diverging_batch diverging_batch 3 true
                0%float diverging_w0).2 = 1%nat.
Proof.
  assert (H1 : (@train diverging os diverging_batch diverging_batch 3 true
                  0%float diverging_w0).1 = Ok tt) by (vm_compute; reflexivity).
  destruct (@train_restores_first_nan diverging os diverging_batch
              diverging_batch 3 true 0%float diverging_w0 _ (run_eq _ _ H1))
    as (val_losses & w_end & j & bytes & Hloop & Hmin & Hf & Hu & Hnan).
  assert (H2 : (@epoch_loop diverging os diverging_batch diverging_batch true
                  0%float (seq 0 3) [] diverging_w0).1
               = Ok [1%float; nan; nan]) by (vm_compute; reflexivity).
  change (Z.to_nat 3) with 3%nat in Hloop.
  exists val_losses. rewrite Hloop in H2 |- *. injection H2 as Hv.
  split; [done|]. split; [done|].
  assert (Hj : j = 1%nat).
  { rewrite Hv in Hmin. vm_compute in Hmin. by injection Hmin. }
  split; [by rewrite <- Hj|].
  assert (H3 : w_params (@train diverging os diverging_batch diverging_batch 3
                           true 0%float diverging_w0).2 = 1%nat)
    by (vm_compute; reflexivity).
  exact H3.
Defined.
